(** * Data-access layer of the procurement front end

    A shallow embedding of
    - [src/frontend/Api.js]: the axios instance and its two interceptors,
    - [src/frontend/ApiService.js]: [authService],
    - the hooks module ([useApi], [usePaginatedApi]),
    together with the properties of the interceptor pipeline, the
    resource state machines and the login flow.

    Conventions.  JavaScript values are the inductive type [JS.value];
    numbers are integers ([Z]); a property read on [null]/[undefined]
    throws a [TypeError].  The browser ([localStorage], [window.location],
    [console]) is an explicit record threaded through a state-and-exception
    monad [IO].  A promise is represented by the way it settles
    ([Fulfilled] / [Rejected]); what it rejects with is an error object
    or a value that is not an object.  React state is a record; every call of a
    state setter is recorded as an [Update], so the order in which the hook
    publishes its state can be read off. *)

From Stdlib Require Import ZArith NArith Ascii String List Bool Lia DecimalString
  Sorted Permutation.
From stdpp Require Import gmap strings.
Import ListNotations.

Local Open Scope Z_scope.
Local Open Scope string_scope.
Local Open Scope list_scope.

Set Warnings "-register-all,-notation-for-abbreviation".

(* ===================================================================== *)
(** ** JavaScript values *)
(* ===================================================================== *)

Module JS.

Inductive value : Type :=
| Undefined
| Null
| Bool (b : bool)
| Num (n : Z)
| Str (s : string)
| Arr (items : list value)
| Obj (fields : list (string * value)).

(** [ToBoolean]: what [if (v)], [v || w] and [!!v] test. *)
Definition truthy (v : value) : bool :=
  match v with
  | Undefined | Null => false
  | Bool b => b
  | Num n => negb (Z.eqb n 0)
  | Str s => negb (String.eqb s "")
  | Arr _ | Obj _ => true
  end.

(** [a || b] *)
Definition or (a b : value) : value := if truthy a then a else b.

(** Own property of an object literal; the first binding of a key is
    the property. *)
Fixpoint field (k : string) (fields : list (string * value)) : value :=
  match fields with
  | [] => Undefined
  | (k', v) :: rest => if String.eqb k k' then v else field k rest
  end.

(** An error object as the code inspects it: [err.message],
    [err.response] (with [status] and [data]) and [err.request]. *)
Record Response : Type := mkResponse { status : Z; data : value }.

Record Error : Type := mkError {
  name : string;
  message : value;
  response : option Response;
  request : bool
}.

(** What the engine throws for [v.k] when [v] is [null] or [undefined].
    The wording of the message is the engine's; only its being a
    non-empty string matters below. *)
Definition TypeError (k : string) : Error :=
  {| name := "TypeError";
     message := Str ("Cannot read properties of undefined (reading '" +:+ k +:+ "')");
     response := None;
     request := false |}.

(** A value that is not an object. *)
Inductive primitive : Type :=
| PUndefined
| PNull
| PBool (b : bool)
| PNum (n : Z)
| PStr (s : string).

Definition nullish (p : primitive) : bool :=
  match p with
  | PUndefined | PNull => true
  | _ => false
  end.

(** What can be thrown, and what a promise can reject with: an object,
    of which the code reads what the record [Error] holds, or a value
    that is not an object ([throw null], [Promise.reject()],
    [throw 'boom']). *)
Inductive thrown : Type :=
| Failure (e : Error)
| Thrown (p : primitive).

Coercion Failure : Error >-> thrown.

(** How a promise settles (also: how an expression completes). *)
Inductive settled (A : Type) : Type :=
| Fulfilled (a : A)
| Rejected (e : thrown).
Arguments Fulfilled {A} a.
Arguments Rejected {A} e.

(** [err.response], [err.request] and [err.message] for a thrown value:
    the read of a property of [null] or [undefined] throws, and the other
    primitives have none of the three properties.  [read_request] and
    [read_message] are for a value whose [response] has been read. *)
Definition read_response (err : thrown) : settled (option Response) :=
  match err with
  | Failure e => Fulfilled (response e)
  | Thrown p =>
      if nullish p then Rejected (TypeError "response") else Fulfilled None
  end.

Definition read_request (err : thrown) : bool :=
  match err with
  | Failure e => request e
  | Thrown _ => false
  end.

Definition read_message (err : thrown) : value :=
  match err with
  | Failure e => message e
  | Thrown _ => Undefined
  end.

(** [v.k] *)
Definition get (v : value) (k : string) : settled value :=
  match v with
  | Undefined | Null => Rejected (TypeError k)
  | Obj fields => Fulfilled (field k fields)
  | Bool _ | Num _ | Str _ | Arr _ => Fulfilled Undefined
  end.

(** [v?.k] *)
Definition get_opt (v : value) (k : string) : value :=
  match v with
  | Obj fields => field k fields
  | _ => Undefined
  end.

(** [response?.data?.message], for what [err.response] gave. *)
Definition body_message (resp : option Response) : value :=
  match resp with
  | Some r => get_opt (data r) "message"
  | None => Undefined
  end.

(** [v] is neither [null] nor [undefined]. *)
Definition defined (v : value) : bool :=
  match v with
  | Undefined | Null => false
  | _ => true
  end.

End JS.

Import JS.

(* ===================================================================== *)
(** ** The browser: localStorage, window.location, console *)
(* ===================================================================== *)

Record Browser : Type := mkBrowser {
  localStorage : gmap string string;
  (** every assignment to [window.location.href], oldest first *)
  navigations : list string;
  (** every [console.error] call: its arguments, oldest first *)
  console : list (list value)
}.

Definition IO (A : Type) : Type := Browser -> Browser * settled A.

Definition ret {A} (a : A) : IO A := fun w => (w, Fulfilled a).
Definition throw {A} (e : Error) : IO A := fun w => (w, Rejected e).
Definition reject {A} (e : thrown) : IO A := fun w => (w, Rejected e).
Definition bind {A B} (m : IO A) (k : A -> IO B) : IO B :=
  fun w =>
    match m w with
    | (w', Fulfilled a) => k a w'
    | (w', Rejected e) => (w', Rejected e)
    end.
Definition lift {A} (r : settled A) : IO A := fun w => (w, r).

Declare Scope io_scope.
Delimit Scope io_scope with io.
Notation "'do' x <- m ; k" := (bind m (fun x => k))
  (at level 10, x name, m at level 100, k at level 200) : io_scope.
Notation "'perform' m ; k" := (bind m (fun _ => k))
  (at level 10, m at level 100, k at level 200) : io_scope.
Local Open Scope io_scope.

Definition getItem (k : string) : IO (option string) :=
  fun w => (w, Fulfilled (localStorage w !! k)).
Definition setItem (k v : string) : IO unit :=
  fun w => (mkBrowser (<[k := v]> (localStorage w)) (navigations w) (console w),
            Fulfilled tt).
Definition removeItem (k : string) : IO unit :=
  fun w => (mkBrowser (delete k (localStorage w)) (navigations w) (console w),
            Fulfilled tt).
Definition set_location_href (url : string) : IO unit :=
  fun w => (mkBrowser (localStorage w) (navigations w ++ [url]) (console w),
            Fulfilled tt).
Definition console_error (args : list value) : IO unit :=
  fun w => (mkBrowser (localStorage w) (navigations w) (console w ++ [args]),
            Fulfilled tt).

(** [if (s)] for the result of [localStorage.getItem]: [null] and the
    empty string are falsy. *)
Definition truthy_item (s : option string) : bool :=
  match s with
  | Some t => negb (String.eqb t "")
  | None => false
  end.

(* ===================================================================== *)
(** ** Api.js: the interceptor pipeline *)
(* ===================================================================== *)

Module Api.

Record Config : Type := mkConfig {
  url : string;
  method : string;
  headers : gmap string string;
  body : value
}.

Definition set_header (h v : string) (config : Config) : Config :=
  mkConfig (url config) (method config) (<[h := v]> (headers config)) (body config).

(** Request interceptor, fulfilled arm. *)
Definition request_fulfilled (config : Config) : IO Config :=
  do token <- getItem "token";
  match token with
  | Some t =>
      if truthy_item token
      then ret (set_header "Authorization" ("Bearer " +:+ t) config)
      else ret config
  | None => ret config
  end.

(** Request interceptor, rejected arm. *)
Definition request_rejected (error : Error) : IO Config := throw error.

(** Response interceptor, fulfilled arm. *)
Definition response_fulfilled (response : Response) : IO Response := ret response.

(** The [switch (status)] of the rejected arm. *)
Definition on_status (status : Z) (data : value) : IO unit :=
  if Z.eqb status 401 then
    perform removeItem "token";
    perform removeItem "user";
    set_location_href "/login"
  else if Z.eqb status 403 then
    do m <- lift (get data "message"); console_error [Str "Access forbidden:"; m]
  else if Z.eqb status 404 then
    do m <- lift (get data "message"); console_error [Str "Resource not found:"; m]
  else if Z.eqb status 500 then
    do m <- lift (get data "message"); console_error [Str "Server error:"; m]
  else
    do m <- lift (get data "message"); console_error [Str "API Error:"; m].

(** Response interceptor, rejected arm. *)
Definition response_rejected (error : Error) : IO Response :=
  perform match response error with
      | Some r => on_status (status r) (data r)
      | None =>
          if request error
          then console_error [Str "No response from server. Please check your connection."]
          else console_error [Str "Error:"; message error]
      end;
  throw error.

(** The same arm for a rejection whose value is not an object:
    [error.response] throws on [null]/[undefined]; on another primitive
    it and [error.request] are [undefined], so the last branch logs
    [error.message], which is [undefined] too. *)
Definition response_rejected_primitive (error : primitive) : IO Response :=
  do resp <- lift (read_response (Thrown error));
  perform match resp with
      | Some r => on_status (status r) (data r)
      | None =>
          if read_request (Thrown error)
          then console_error [Str "No response from server. Please check your connection."]
          else console_error [Str "Error:"; read_message (Thrown error)]
      end;
  reject (Thrown error).

(** One call through the instance: request interceptor, transport,
    response interceptor.  [send] is the transport: how the exchange
    settles for the descriptor handed to it. *)
Definition request (send : Config -> settled Response) (config : Config)
  : IO Response :=
  do config' <- request_fulfilled config;
  match send config' with
  | Fulfilled r => response_fulfilled r
  | Rejected (Failure e) => response_rejected e
  | Rejected (Thrown p) => response_rejected_primitive p
  end.

Definition post (send : Config -> settled Response) (url : string) (payload : value)
  : IO Response :=
  request send (mkConfig url "post" {[ "Content-Type" := "application/json" ]} payload).

End Api.

(* ===================================================================== *)
(** ** ApiService.js: authService *)
(* ===================================================================== *)

Module AuthService.

(** [endpoints.auth.login] of Api.js. *)
Definition endpoints_auth_login : string := "/api/auth/login".

Section Builtins.

(** The two built-ins the module relies on: the string conversion that
    [localStorage.setItem] applies to its value, and [JSON.stringify]. *)
Variable ToString : value -> string.
Variable JSON_stringify : value -> value.

(** The transport behind the axios instance. *)
Variable send : Api.Config -> settled Response.

Definition login (credentials : value) : IO value :=
  do response <- Api.post send endpoints_auth_login credentials;
  do token <- lift (get (data response) "token");
  perform (if truthy token then
         perform setItem "token" (ToString token);
         do user <- lift (get (data response) "user");
         setItem "user" (ToString (JSON_stringify user))
       else ret tt);
  ret (data response).

End Builtins.

Definition logout : IO unit :=
  perform removeItem "token";
  removeItem "user".

Definition isAuthenticated : IO bool :=
  do token <- getItem "token";
  ret (truthy_item token).

End AuthService.

(* ===================================================================== *)
(** ** Hooks: useApi *)
(* ===================================================================== *)

(** [err.response?.data?.message] *)
Definition server_message (err : Error) : value :=
  match response err with
  | Some r => get_opt (JS.data r) "message"
  | None => Undefined
  end.

Module UseApi.

Record State : Type := mkState {
  data : value;
  loading : bool;
  error : value
}.

(** One call of a state setter. *)
Inductive Update : Type :=
| SetData (v : value)
| SetLoading (b : bool)
| SetError (v : value).

Definition apply (s : State) (u : Update) : State :=
  match u with
  | SetData v => mkState v (loading s) (error s)
  | SetLoading b => mkState (data s) b (error s)
  | SetError v => mkState (data s) (loading s) v
  end.

Definition publish (s : State) (us : list Update) : State := fold_left apply us s.

(** The three [useState] initial values. *)
Definition initial (callOnMount : bool) : State :=
  {| data := Null; loading := callOnMount; error := Null |}.

(** [err.response?.data?.message || err.message || 'An error occurred'] *)
Definition errorMessage (err : Error) : value :=
  JS.or (JS.or (server_message err) (message err)) (Str "An error occurred").

(** [execute], up to the [await]. *)
Definition execute_start : list Update := [SetLoading true; SetError Null].

(** The same expression for any value caught: it throws when [err] is
    [null] or [undefined], the only read without [?.]. *)
Definition errorMessage_of (err : thrown) : settled value :=
  match read_response err with
  | Fulfilled resp =>
      Fulfilled (JS.or (JS.or (body_message resp) (read_message err))
                       (Str "An error occurred"))
  | Rejected e => Rejected e
  end.

(** [execute], from the settlement of the awaited call: the rest of the
    [try], the [catch] and the [finally].  When the [catch] block itself
    throws, [setError] and [throw err] are not reached; the [finally]
    block runs all the same and the promise rejects with what was
    thrown. *)
Definition execute_settle (o : settled value) : list Update * settled value :=
  match o with
  | Fulfilled result => ([SetData result] ++ [SetLoading false], Fulfilled result)
  | Rejected err =>
      match errorMessage_of err with
      | Fulfilled errorMessage =>
          ([SetError errorMessage] ++ [SetLoading false], Rejected err)
      | Rejected e => ([SetLoading false], Rejected e)
      end
  end.

(** [execute(...args)]: the setter calls it makes, in order, and how the
    promise it returns settles. *)
Definition execute (apiFunction : list value -> settled value) (args : list value)
  : list Update * settled value :=
  let (after, r) := execute_settle (apiFunction args) in
  (execute_start ++ after, r).


(** The mount effect. *)
Definition mount (apiFunction : list value -> settled value) (callOnMount : bool)
  : list Update :=
  if callOnMount then fst (execute apiFunction []) else [].

End UseApi.

(* ===================================================================== *)
(** ** Hooks: usePaginatedApi *)
(* ===================================================================== *)

Module UsePaginatedApi.

(** What the bound operation resolves to: [null]/[undefined], a sequence,
    or an object with an optional [data] ([Undefined] when absent) and
    optional numeric [totalPages], [totalItems], [total]. *)
Inductive Result : Type :=
| Nullish
| Items (items : list value)
| Envelope (data : value) (totalPages totalItems total : option Z).

Definition num_field (k : string) (o : option Z) : list (string * value) :=
  match o with
  | Some n => [(k, Num n)]
  | None => []
  end.

Definition as_value (r : Result) : value :=
  match r with
  | Nullish => Undefined
  | Items l => Arr l
  | Envelope d tp ti t =>
      Obj (match d with Undefined => [] | _ => [("data", d)] end
           ++ num_field "totalPages" tp ++ num_field "totalItems" ti
           ++ num_field "total" t)
  end.

(** [n || d] for an optional numeric field. *)
Definition num_or (o : option Z) (d : Z) : Z :=
  match o with
  | Some n => if Z.eqb n 0 then d else n
  | None => d
  end.

Record State : Type := mkState {
  data : value;
  loading : bool;
  error : value;
  page : Z;
  totalPages : Z;
  totalItems : Z
}.

Inductive Update : Type :=
| SetData (v : value)
| SetLoading (b : bool)
| SetError (v : value)
| SetPage (p : Z)
| SetTotalPages (n : Z)
| SetTotalItems (n : Z).

Definition apply (s : State) (u : Update) : State :=
  match u with
  | SetData v => mkState v (loading s) (error s) (page s) (totalPages s) (totalItems s)
  | SetLoading b => mkState (data s) b (error s) (page s) (totalPages s) (totalItems s)
  | SetError v => mkState (data s) (loading s) v (page s) (totalPages s) (totalItems s)
  | SetPage p => mkState (data s) (loading s) (error s) p (totalPages s) (totalItems s)
  | SetTotalPages n => mkState (data s) (loading s) (error s) (page s) n (totalItems s)
  | SetTotalItems n => mkState (data s) (loading s) (error s) (page s) (totalPages s) n
  end.

Definition publish (s : State) (us : list Update) : State := fold_left apply us s.

(** The [useState] initial values. *)
Definition initial (initialPage : Z) : State :=
  {| data := Arr []; loading := false; error := Null;
     page := initialPage; totalPages := 0; totalItems := 0 |}.

(** [fetchData], up to the [await]. *)
Definition fetch_start : list Update := [SetLoading true; SetError Null].

(** The three setter calls of the [try] block after the [await]; the
    first property read throws on a nullish result. *)
Definition try_body (o : settled Result) : list Update * settled unit :=
  match o with
  | Fulfilled Nullish => ([], Rejected (TypeError "data"))
  | Fulfilled (Items l) =>
      ([SetData (Arr l); SetTotalPages 0; SetTotalItems 0], Fulfilled tt)
  | Fulfilled (Envelope d tp ti t as result) =>
      ([SetData (JS.or d (as_value result));
        SetTotalPages (num_or tp 0);
        SetTotalItems (num_or ti (num_or t 0))], Fulfilled tt)
  | Rejected err => ([], Rejected err)
  end.

(** [err.response?.data?.message || 'Failed to fetch data'], the
    argument of [setError] in the [catch] block; it throws when [err] is
    [null] or [undefined]. *)
Definition failure_message (err : thrown) : settled value :=
  match read_response err with
  | Fulfilled resp =>
      Fulfilled (JS.or (body_message resp) (Str "Failed to fetch data"))
  | Rejected e => Rejected e
  end.

(** [fetchData], from the settlement of the awaited call: setter calls,
    and how the promise returned by [fetchData] settles.  When the
    [catch] block itself throws, [setError] is not reached; the [finally]
    block runs all the same and the promise rejects. *)
Definition fetch_settle (o : settled Result) : list Update * settled value :=
  match try_body o with
  | (us, Fulfilled _) => (us ++ [SetLoading false], Fulfilled Undefined)
  | (us, Rejected err) =>
      match failure_message err with
      | Fulfilled m =>
          (us ++ [SetError m] ++ [SetLoading false], Fulfilled Undefined)
      | Rejected e => (us ++ [SetLoading false], Rejected e)
      end
  end.

(** [fetchData(pageNum)] run to completion against an operation. *)
Definition fetchData (apiFunction : Z -> Z -> settled Result) (pageSize pageNum : Z)
  : list Update * settled value :=
  let (after, r) := fetch_settle (apiFunction pageNum pageSize) in
  (fetch_start ++ after, r).

(** The hook's arguments that may differ from one render to the next.
    The bound operation is known by its identity only. *)
Record Props : Type := mkProps { apiFunction : nat; pageSize : Z }.

(** One invocation of the bound operation: which function, and the
    object [{page, limit}] passed to it. *)
Record Call : Type := mkCall { callee : nat; arg_page : Z; arg_limit : Z }.

(** A mounted hook: published state, current props, every invocation of
    the bound operation so far (oldest first), how many of them are still
    in flight and how many have settled. *)
Record Hook : Type := mkHook {
  state : State;
  props : Props;
  calls : list Call;
  pending : nat;
  completed : nat
}.

(** [fetchData(pageNum)] up to its [await]: the call is issued. *)
Definition issue (pageNum : Z) (h : Hook) : Hook :=
  mkHook (publish (state h) fetch_start)
         (props h)
         (calls h ++ [mkCall (apiFunction (props h)) pageNum (pageSize (props h))])
         (S (pending h))
         (completed h).

(** [useEffect(() => { fetchData(page) }, [page, fetchData])] *)
Definition effect (h : Hook) : Hook := issue (page (state h)) h.

(** [setPage(p)]: nothing happens for an unchanged value; otherwise the
    component renders again and the effect, whose dependency [page]
    changed, runs. *)
Definition setPage (p : Z) (h : Hook) : Hook :=
  if Z.eqb p (page (state h)) then h
  else effect (mkHook (apply (state h) (SetPage p)) (props h) (calls h)
                      (pending h) (completed h)).

Definition nextPage (h : Hook) : Hook :=
  if Z.ltb (page (state h)) (totalPages (state h))
  then setPage (page (state h) + 1) h
  else h.

Definition prevPage (h : Hook) : Hook :=
  if Z.gtb (page (state h)) 1
  then setPage (page (state h) - 1) h
  else h.

Definition goToPage (pageNum : Z) (h : Hook) : Hook :=
  if Z.geb pageNum 1 && Z.leb pageNum (totalPages (state h))
  then setPage pageNum h
  else h.

(** [refetch(pageNum)], [pageNum] defaulting to the current page. *)
Definition refetch (pageNum : option Z) (h : Hook) : Hook :=
  issue (match pageNum with Some n => n | None => page (state h) end) h.

Definition props_eqb (p q : Props) : bool :=
  Nat.eqb (apiFunction p) (apiFunction q) && Z.eqb (pageSize p) (pageSize q).

(** The component renders again with arguments [p]: [fetchData] is
    re-created when [apiFunction] or [pageSize] differ, and the effect,
    which depends on it, runs. *)
Definition render (p : Props) (h : Hook) : Hook :=
  let h' := mkHook (state h) p (calls h) (pending h) (completed h) in
  if props_eqb p (props h) then h' else effect h'.

(** A call in flight settles. *)
Definition settle (o : settled Result) (h : Hook) : Hook :=
  match pending h with
  | O => h
  | S n =>
      mkHook (publish (state h) (fst (fetch_settle o))) (props h) (calls h)
             n (S (completed h))
  end.

(** First render and mount effect. *)
Definition mount (p : Props) (initialPage : Z) : Hook :=
  effect (mkHook (initial initialPage) p [] O O).

Inductive Event : Type :=
| NextPage
| PrevPage
| GoToPage (pageNum : Z)
| Refetch (pageNum : option Z)
| Render (p : Props)
| Settle (o : settled Result).

Definition step (h : Hook) (e : Event) : Hook :=
  match e with
  | NextPage => nextPage h
  | PrevPage => prevPage h
  | GoToPage n => goToPage n h
  | Refetch n => refetch n h
  | Render p => render p h
  | Settle o => settle o h
  end.

Definition run (h : Hook) (es : list Event) : Hook := fold_left step es h.

(** The invocations of the bound operation that [e] adds. *)
Definition issued (h : Hook) (e : Event) : list Call :=
  drop (length (calls h)) (calls (step h e)).

(** *** Vocabulary of the statements about the hook *)

(** The call [fetchData(pageNum)] makes with the props of [h]. *)
Definition call_for (h : Hook) (pageNum : Z) : Call :=
  mkCall (apiFunction (props h)) pageNum (pageSize (props h)).

(** A navigation action is [setPage] of some page, possibly the current
    one (a blocked action). *)
Definition target (h : Hook) (e : Event) : Z :=
  match e with
  | NextPage =>
      if Z.ltb (page (state h)) (totalPages (state h))
      then page (state h) + 1 else page (state h)
  | PrevPage =>
      if Z.gtb (page (state h)) 1 then page (state h) - 1 else page (state h)
  | GoToPage n =>
      if Z.geb n 1 && Z.leb n (totalPages (state h)) then n else page (state h)
  | _ => page (state h)
  end.

Definition in_bounds (h : Hook) : Prop :=
  1 <= page (state h) <= Z.max (totalPages (state h)) 1.

(** The value a settlement writes to [totalPages], if it writes one. *)
Definition reported (o : settled Result) : option Z :=
  match o with
  | Fulfilled (Items _) => Some 0
  | Fulfilled (Envelope _ tp _ _) => Some (num_or tp 0)
  | Fulfilled Nullish | Rejected _ => None
  end.

(** The backend keeps the current page in range: a settlement that
    writes [totalPages] writes a value not below the current page (or
    the current page is the first). *)
Definition admissible (h : Hook) (e : Event) : Prop :=
  match e with
  | Settle o =>
      match reported o with
      | Some n => page (state h) <= Z.max n 1
      | None => True
      end
  | _ => True
  end.

Fixpoint admissible_run (h : Hook) (es : list Event) : Prop :=
  match es with
  | [] => True
  | e :: es' => admissible h e /\ admissible_run (step h e) es'
  end.

End UsePaginatedApi.

(* ===================================================================== *)
(** ** Api.js: the endpoints table and the other verbs *)
(* ===================================================================== *)

Module Endpoints.

Definition auth_register : string := "/api/auth/register".
Definition auth_verify : string := "/api/auth/verify".
Definition profile_get : string := "/api/profile".
Definition profile_update : string := "/api/profile".
Definition dashboard_stats : string := "/api/dashboard/stats".
Definition dashboard_recent : string := "/api/dashboard/recent".
Definition admin_statistics : string := "/api/admin/statistics".
Definition boq_create : string := "/api/boq".
(** [(id) => `/api/boq/${id}`], for an [id] already a string *)
Definition boq_get (id : string) : string := "/api/boq/" +:+ id.
Definition boq_update (id : string) : string := "/api/boq/" +:+ id.
Definition boq_delete (id : string) : string := "/api/boq/" +:+ id.
Definition health : string := "/api/health".

End Endpoints.

Module Verbs.

(** The [headers] of [axios.create]. *)
Definition default_headers : gmap string string :=
  {[ "Content-Type" := "application/json" ]}.

(** [api.get(url)], [api.put(url, payload)], [api.delete(url)] *)
Definition get (send : Api.Config -> settled Response) (url : string)
  : IO Response :=
  Api.request send (Api.mkConfig url "get" default_headers Undefined).

Definition put (send : Api.Config -> settled Response) (url : string)
    (payload : value) : IO Response :=
  Api.request send (Api.mkConfig url "put" default_headers payload).

Definition delete (send : Api.Config -> settled Response) (url : string)
  : IO Response :=
  Api.request send (Api.mkConfig url "delete" default_headers Undefined).

End Verbs.

(* ===================================================================== *)
(** ** ApiService.js: the remaining auth flows and the facades *)
(* ===================================================================== *)

Module Services.

Section Transport.

Variable send : Api.Config -> settled Response.

(** [authService.register] *)
Definition register (userData : value) : IO value :=
  do response <- Api.post send Endpoints.auth_register userData;
  ret (data response).

(** [authService.verify] *)
Definition verify : IO value :=
  do response <- Verbs.get send Endpoints.auth_verify;
  ret (data response).

(** [profileService] *)
Definition getProfile : IO value :=
  do response <- Verbs.get send Endpoints.profile_get;
  ret (data response).

Definition updateProfile (profileData : value) : IO value :=
  do response <- Verbs.put send Endpoints.profile_update profileData;
  ret (data response).

(** [boqService], the calls addressed by id or carrying a body *)
Definition boq_getById (id : string) : IO value :=
  do response <- Verbs.get send (Endpoints.boq_get id);
  ret (data response).

Definition boq_create (boqData : value) : IO value :=
  do response <- Api.post send Endpoints.boq_create boqData;
  ret (data response).

Definition boq_update (id : string) (boqData : value) : IO value :=
  do response <- Verbs.put send (Endpoints.boq_update id) boqData;
  ret (data response).

Definition boq_delete (id : string) : IO value :=
  do response <- Verbs.delete send (Endpoints.boq_delete id);
  ret (data response).

(** [dashboardService], [adminService.getStatistics], [healthService] *)
Definition getStats : IO value :=
  do response <- Verbs.get send Endpoints.dashboard_stats;
  ret (data response).

Definition getRecent : IO value :=
  do response <- Verbs.get send Endpoints.dashboard_recent;
  ret (data response).

Definition getStatistics : IO value :=
  do response <- Verbs.get send Endpoints.admin_statistics;
  ret (data response).

Definition check : IO value :=
  do response <- Verbs.get send Endpoints.health;
  ret (data response).

End Transport.

(** [authService.getCurrentUser]; [JSON.parse] is the built-in, which
    throws on text that is not JSON. *)
Definition getCurrentUser (JSON_parse : string -> settled value) : IO value :=
  do userStr <- getItem "user";
  match userStr with
  | Some s => if truthy_item userStr then lift (JSON_parse s) else ret Null
  | None => ret Null
  end.

(** The label the response interceptor logs for a status other than 401. *)
Definition status_label (status : Z) : string :=
  if Z.eqb status 403 then "Access forbidden:"
  else if Z.eqb status 404 then "Resource not found:"
  else if Z.eqb status 500 then "Server error:"
  else "API Error:".

End Services.

(** The facade calls modelled above, for a given transport, id and body. *)
Definition facades (send : Api.Config -> settled Response) (id : string)
    (payload : value) : list (IO value) :=
  [ Services.register send payload; Services.verify send;
    Services.getProfile send; Services.updateProfile send payload;
    Services.boq_getById send id; Services.boq_create send payload;
    Services.boq_update send id payload; Services.boq_delete send id;
    Services.getStats send; Services.getRecent send;
    Services.getStatistics send; Services.check send ].

(* ===================================================================== *)
(** ** Hooks module: overlapping calls of useApi *)
(* ===================================================================== *)

Module UseApiRuns.

Import UseApi.

(** A mounted [useApi]: the published state and the number of calls of
    [execute] whose awaited operation has not settled yet.  Calls are not
    told apart: each settlement runs the same continuation. *)
Record Hook : Type := mkHook { state : State; pending : nat }.

Inductive Event : Type :=
| Execute
| Settle (o : settled value).

Definition step (h : Hook) (e : Event) : Hook :=
  match e with
  | Execute => mkHook (publish (state h) execute_start) (S (pending h))
  | Settle o =>
      match pending h with
      | O => h
      | S n => mkHook (publish (state h) (fst (execute_settle o))) n
      end
  end.

Definition run (h : Hook) (es : list Event) : Hook := fold_left step es h.

(** First render, then the mount effect: [execute()] if [callOnMount]. *)
Definition mount (callOnMount : bool) : Hook :=
  let h := mkHook (initial callOnMount) O in
  if callOnMount then step h Execute else h.

End UseApiRuns.

(* ===================================================================== *)
(** ** Hooks module: the utilities *)
(* ===================================================================== *)

Module Utils.

(** The text of an integer, as a template literal prints a number. *)
Definition number_to_string (n : Z) : string :=
  DecimalString.NilZero.string_of_int (Z.to_int n).

(** [getErrorMessage(error)]; the first read, [error.response], throws
    when [error] is [null] or [undefined]. *)
Definition getErrorMessage (error : thrown) : settled value :=
  match read_response error with
  | Rejected e => Rejected e
  | Fulfilled (Some r) =>
      Fulfilled
        (JS.or (JS.or (get_opt (JS.data r) "message") (get_opt (JS.data r) "error"))
               (Str ("Error: " +:+ number_to_string (status r))))
  | Fulfilled None =>
      if read_request error
      then Fulfilled (Str "No response from server. Please check your connection.")
      else Fulfilled (JS.or (read_message error) (Str "An unexpected error occurred"))
  end.

(** [truncateText(text, maxLength)] for a string [text]; [substring]
    clamps a negative end to 0. *)
Definition truncateText (text : string) (maxLength : Z) : string :=
  if String.eqb text "" || Z.leb (Z.of_nat (String.length text)) maxLength
  then text
  else String.substring 0 (Z.to_nat maxLength) text +:+ "...".

(** The default value of [maxLength]. *)
Definition truncateText_default (text : string) : string := truncateText text 50.

Definition API_BASE_URL : string := "https://tatvadirect.onrender.com".

Definition getApiUrl (endpoint : string) : string :=
  let cleanEndpoint :=
    if String.prefix "/" endpoint then endpoint else "/" +:+ endpoint in
  API_BASE_URL +:+ cleanEndpoint.

(** [Object.keys(v)] for a value that is not [null]/[undefined]: the
    distinct keys of an object, the indices of an array or of a string,
    nothing for a number or a boolean. *)
Definition indices (n : nat) : list string :=
  map (fun i => number_to_string (Z.of_nat i)) (seq 0 n).

Definition Object_keys (v : value) : list string :=
  match v with
  | Obj fields => nodup string_dec (map fst fields)
  | Arr items => indices (length items)
  | Str s => indices (String.length s)
  | _ => []
  end.

Definition isEmpty (obj : value) : bool :=
  negb (truthy obj) || Nat.eqb (length (Object_keys obj)) 0.

End Utils.

(* ===================================================================== *)
(** ** Regular expressions, as far as the validators use them *)
(* ===================================================================== *)

(** A string is the sequence of its code units; the characters of a Rocq
    string stand for the code units below 256.  The expressions below use
    neither flags nor captures, so [test] on an expression anchored by
    [^] and [$] is membership of the whole string in its language. *)

Module Regex.

Inductive re : Type :=
| Never
| Eps
| Class (p : ascii -> bool)
| Cat (r s : re)
| Alt (r s : re)
| Star (r : re).

(** [r+] and [r{n}] *)
Definition Plus (r : re) : re := Cat r (Star r).

Fixpoint Repeat (n : nat) (r : re) : re :=
  match n with
  | O => Eps
  | S n' => Cat r (Repeat n' r)
  end.

Fixpoint nullable (r : re) : bool :=
  match r with
  | Never => false
  | Eps => true
  | Class _ => false
  | Cat r s => nullable r && nullable s
  | Alt r s => nullable r || nullable s
  | Star _ => true
  end.

Fixpoint deriv (c : ascii) (r : re) : re :=
  match r with
  | Never => Never
  | Eps => Never
  | Class p => if p c then Eps else Never
  | Cat r s =>
      if nullable r then Alt (Cat (deriv c r) s) (deriv c s)
      else Cat (deriv c r) s
  | Alt r s => Alt (deriv c r) (deriv c s)
  | Star r => Cat (deriv c r) (Star r)
  end.

Fixpoint matches (r : re) (s : list ascii) : bool :=
  match s with
  | [] => nullable r
  | c :: s' => matches (deriv c r) s'
  end.

(** [/^r$/.test(s)] *)
Definition test (r : re) (s : string) : bool :=
  matches r (list_ascii_of_string s).

(** The language of an expression. *)
Inductive lang : re -> list ascii -> Prop :=
| lang_eps : lang Eps []
| lang_class p c : p c = true -> lang (Class p) [c]
| lang_cat r s u v : lang r u -> lang s v -> lang (Cat r s) (u ++ v)
| lang_alt_l r s u : lang r u -> lang (Alt r s) u
| lang_alt_r r s u : lang s u -> lang (Alt r s) u
| lang_star_nil r : lang (Star r) []
| lang_star_cons r u v : lang r u -> lang (Star r) v -> lang (Star r) (u ++ v).

(** Character classes. *)
Definition code (c : ascii) : N := N_of_ascii c.

Definition in_range (lo hi : ascii) (c : ascii) : bool :=
  N.leb (code lo) (code c) && N.leb (code c) (code hi).

(** [\d] *)
Definition digit (c : ascii) : bool := in_range "0" "9" c.

(** [\s], for code units below 256: tab, line feed, vertical tab, form
    feed, carriage return, space, no-break space. *)
Definition space (c : ascii) : bool :=
  existsb (N.eqb (code c)) [9; 10; 11; 12; 13; 32; 160]%N.

Definition exactly (a : ascii) (c : ascii) : bool := Ascii.eqb a c.

(** [[^\s@]] *)
Definition not_space_or_at (c : ascii) : bool :=
  negb (space c || exactly "@" c).

End Regex.

Module Validators.

Import Regex.

(** [/^[^\s@]+@[^\s@]+\.[^\s@]+$/] *)
Definition emailRegex : re :=
  Cat (Plus (Class not_space_or_at))
      (Cat (Class (exactly "@"))
           (Cat (Plus (Class not_space_or_at))
                (Cat (Class (exactly "."))
                     (Plus (Class not_space_or_at))))).

Definition isValidEmail (email : string) : bool := test emailRegex email.

(** [/^[6-9]\d{9}$/] *)
Definition phoneRegex : re :=
  Cat (Class (in_range "6" "9")) (Repeat 9 (Class digit)).

Definition isValidPhone (phone : string) : bool := test phoneRegex phone.

End Validators.

(* ===================================================================== *)
(** ** Hooks module: sortBy *)
(* ===================================================================== *)

Module SortBy.

(** [Array.prototype.sort(compare)].  The built-in is a stable sort; for
    a comparator that orders the elements consistently its result is
    determined, and it is the one computed here, by insertion from the
    right in front of the first element that does not compare below. *)
Section Sort.

Context {A : Type}.
Variable compare : A -> A -> Z.

Fixpoint insert (x : A) (l : list A) : list A :=
  match l with
  | [] => [x]
  | y :: l' => if Z.leb (compare x y) 0 then x :: l else y :: insert x l'
  end.

Definition sort (l : list A) : list A := fold_right insert [] l.

End Sort.

(** An element of the array: an object, given by its fields. *)
Definition item : Type := list (string * value).

Section Comparison.

(** [a < b] of the engine on operands that are not both numbers. *)
Variable coerced_lt : value -> value -> bool.

Definition lt (a b : value) : bool :=
  match a, b with
  | Num x, Num y => Z.ltb x y
  | _, _ => coerced_lt a b
  end.

(** The arrow function handed to [sort]. *)
Definition comparator (key order : string) (a b : item) : Z :=
  let aVal := field key a in
  let bVal := field key b in
  if lt aVal bVal then (if String.eqb order "asc" then -1 else 1)
  else if lt bVal aVal then (if String.eqb order "asc" then 1 else -1)
  else 0.

(** [sortBy(array, key, order)]; the spread makes a copy, so [array]
    itself is left alone. *)
Definition sortBy (array : list item) (key order : string) : list item :=
  sort (comparator key order) array.

End Comparison.

(** The numeric key of an item, for the statements. *)
Definition numeric (key : string) (a : item) : Prop :=
  exists n, field key a = Num n.

Definition key_of (key : string) (a : item) : Z :=
  match field key a with
  | Num n => n
  | _ => 0
  end.

End SortBy.

(* ===================================================================== *)
(** ** Hooks module: groupBy *)
(* ===================================================================== *)

Module GroupBy.

(** What [x.push(...)] throws when [x] has no [push]. *)
Definition not_a_function : Error :=
  mkError "TypeError" (Str "result[groupKey].push is not a function") None false.

Section Builtins.

(** The string a value becomes when it is used as a property key, and
    the property names that the empty object literal inherits
    ([constructor], [toString], ...): all of them name truthy values
    that have no [push]. *)
Variable ToString : value -> string.
Variable inherited : string -> bool.

(** The result object: its own properties, each an array of items. *)
Definition reducer (key : string)
    (result : settled (gmap string (list SortBy.item))) (item : SortBy.item)
  : settled (gmap string (list SortBy.item)) :=
  match result with
  | Rejected e => Rejected e
  | Fulfilled groups =>
      let groupKey := ToString (field key item) in
      match groups !! groupKey with
      | Some group => Fulfilled (<[groupKey := group ++ [item]]> groups)
      | None =>
          if inherited groupKey then Rejected not_a_function
          else Fulfilled (<[groupKey := [item]]> groups)
      end
  end.

Definition groupBy (array : list SortBy.item) (key : string)
  : settled (gmap string (list SortBy.item)) :=
  fold_left (reducer key) array (Fulfilled ∅).

(** The items of [array] whose key is [k], in the order of [array]. *)
Definition members (key k : string) (array : list SortBy.item)
  : list SortBy.item :=
  List.filter (fun a => String.eqb (ToString (field key a)) k) array.

Definition group_of (key k : string) (array : list SortBy.item)
  : option (list SortBy.item) :=
  match members key k array with
  | [] => None
  | g => Some g
  end.

End Builtins.

End GroupBy.

(* ===================================================================== *)
(** ** pages/VendorSelect.jsx *)
(* ===================================================================== *)

Module VendorSelect.

(** An item of the bill of quantities; [id] is the item's id as a
    property key. *)
Record Item : Type := mkItem { id : string; normalizedName : string }.

(** [items && items.length > 0 ? items : (location.state?.items || [])];
    [None] stands for a prop, or a navigation state, that is absent. *)
Definition itemsToUse (items location_items : option (list Item)) : list Item :=
  match items with
  | Some (i :: rest) => i :: rest
  | _ => match location_items with
         | Some l => l
         | None => []
         end
  end.

(** What the mount effect does. *)
Inductive Effect : Type :=
| Navigate (path : string)
| Fetch (url : string).

Definition mount_effect (items : list Item) : Effect :=
  match items with
  | [] => Navigate "/boq-normalize"
  | _ => Fetch (Utils.getApiUrl "/api/vendors/rank")
  end.

(** [fetchVendors], from the settlement of [res.json()]: the new value of
    [itemVendors] and the error logged, if any. *)
Definition fetchVendors (json : settled value) (itemVendors : value)
  : value * option thrown :=
  match json with
  | Fulfilled data =>
      match get data "itemVendors" with
      | Fulfilled v => (v, None)
      | Rejected e => (itemVendors, Some e)
      end
  | Rejected e => (itemVendors, Some e)
  end.

(** The initial [itemVendors] and [selections]. *)
Definition initial_itemVendors : value := Obj [].


(** [handleSelect]: [{ ...selections, [itemId]: vendorId }] *)
Definition handleSelect (itemId : string) (vendorId : value)
    (selections : gmap string value) : gmap string value :=
  <[itemId := vendorId]> selections.

(** The [disabled] attribute of the button. *)
Definition proceed_disabled (selections : gmap string value) (items : list Item)
  : bool :=
  negb (Nat.eqb (size selections) (length items)).

(** A click on a vendor card; cards are rendered for the items of
    [itemsToUse] only. *)
Definition click_on_rendered (items : list Item) (click : string * value) : Prop :=
  In (fst click) (map id items).

Definition after_clicks (clicks : list (string * value)) : gmap string value :=
  fold_left (fun sel click => handleSelect (fst click) (snd click) sel) clicks ∅.

End VendorSelect.

(* ===================================================================== *)
(** ** The error messages, as the specification words them *)
(* ===================================================================== *)

(** Written from the words of the specification, to be compared with
    what the hooks compute: the message of a failure is the server's
    message field when there is one, else the failure's own message,
    else a fixed text. *)
Definition message_by_priority (e : Error) : value :=
  match response e with
  | Some r =>
      if truthy (get_opt (JS.data r) "message") then get_opt (JS.data r) "message"
      else if truthy (message e) then message e
      else Str "An error occurred"
  | None =>
      if truthy (message e) then message e else Str "An error occurred"
  end.

(** The paginated hook has no use for the failure's own message. *)
Definition paginated_message (e : Error) : value :=
  match response e with
  | Some r =>
      if truthy (get_opt (JS.data r) "message") then get_opt (JS.data r) "message"
      else Str "Failed to fetch data"
  | None => Str "Failed to fetch data"
  end.

(* ===================================================================== *)
(** ** usePaginatedApi: several navigation calls before one render *)
(* ===================================================================== *)

Module Batched.

Import UsePaginatedApi.

Inductive Action : Type :=
| Next
| Prev
| GoTo (pageNum : Z).

(** What a call queues: the guard reads [page] and [totalPages] of the
    render the function was created in ([h]); the queued update of
    [nextPage] and [prevPage] is a function of the value pending at the
    time it is applied. *)
Definition queued (h : Hook) (a : Action) (prev : Z) : Z :=
  match a with
  | Next => if Z.ltb (page (state h)) (totalPages (state h)) then prev + 1 else prev
  | Prev => if Z.gtb (page (state h)) 1 then prev - 1 else prev
  | GoTo n =>
      if Z.geb n 1 && Z.leb n (totalPages (state h)) then n else prev
  end.

(** The calls of one event handler, then the render. *)
Definition tick (actions : list Action) (h : Hook) : Hook :=
  setPage (fold_left (fun prev a => queued h a prev) actions (page (state h))) h.

Definition event_of (a : Action) : Event :=
  match a with
  | Next => NextPage
  | Prev => PrevPage
  | GoTo n => GoToPage n
  end.

End Batched.

(* ===================================================================== *)
(** ** Sample inputs *)
(* ===================================================================== *)

Section Samples.

Import UsePaginatedApi.

Definition sample_config : Api.Config :=
  Api.mkConfig "/api/boq" "get" {[ "Content-Type" := "application/json" ]} Undefined.

Definition logged_in : Browser :=
  mkBrowser {[ "token" := "abc"; "user" := "{}" ]} [] [].

Definition logged_out : Browser := mkBrowser ∅ [] [].

Definition unauthorized : Error :=
  mkError "AxiosError" (Str "Request failed with status code 401")
          (Some (mkResponse 401 (Obj [("message", Str "Token expired")]))) true.

(** A 500 answer whose body is the JSON literal [null], and a 403 answer
    for which the adapter supplied no [data] at all. *)
Definition server_error_null_body : Error :=
  mkError "AxiosError" (Str "Request failed with status code 500")
          (Some (mkResponse 500 Null)) true.

Definition forbidden_no_body : Error :=
  mkError "AxiosError" (Str "Request failed with status code 403")
          (Some (mkResponse 403 Undefined)) true.

(** Stand-ins for the two built-ins, used to instantiate the statements
    about [login], which hold for any choice of them.  [scalar_ToString]
    is exact on strings, [undefined], [null], booleans and plain objects;
    [shallow_stringify] on [undefined], [null], booleans, the empty
    object and the empty array.  Elsewhere they are placeholders. *)
Definition scalar_ToString (v : value) : string :=
  match v with
  | Str s => s
  | Undefined => "undefined"
  | Null => "null"
  | Bool true => "true"
  | Bool false => "false"
  | Num _ | Arr _ | Obj _ => "[object Object]"
  end.

Definition shallow_stringify (v : value) : value :=
  match v with
  | Undefined => Undefined
  | Null => Str "null"
  | Bool true => Str "true"
  | Bool false => Str "false"
  | Obj [] => Str "{}"
  | Arr [] => Str "[]"
  | _ => Str "{...}"
  end.

Definition credentials_up : value :=
  Obj [("username", Str "u"); ("password", Str "p")].

Definition backend_grants (_ : Api.Config) : settled Response :=
  Fulfilled (mkResponse 200 (Obj [("token", Str "abc"); ("user", Obj [])])).

Definition backend_pending_approval (_ : Api.Config) : settled Response :=
  Fulfilled (mkResponse 200 (Obj [("message", Str "Account awaiting approval")])).

Definition boom : Error := mkError "Error" (Str "boom") None false.

Definition always_fails (_ _ : Z) : settled UsePaginatedApi.Result := Rejected boom.


Definition rejects_with_boom (_ : list value) : settled value := Rejected boom.


Definition three_pages : settled Result :=
  Fulfilled (Envelope (Arr [Str "row"]) (Some 3) (Some 25) None).

Definition listing : Props := mkProps 0 10.

(** Page 1 of 3, first fetch settled. *)
Definition on_first_page : Hook := settle three_pages (mount listing 1).

(** Page 3 of 3. *)
Definition on_last_page : Hook :=
  run on_first_page [GoToPage 3; Settle three_pages].

Definition browsing : list Event :=
  [Settle three_pages; NextPage; Settle three_pages; GoToPage 3;
   Settle (Rejected boom); Refetch None; Settle three_pages; PrevPage].

(** A transport that answers every call with 401, and one that answers
    every call with a body carrying a token. *)
Definition backend_expired (_ : Api.Config) : settled Response :=
  Rejected unauthorized.

Definition offline : Error :=
  mkError "AxiosError" (Str "Network Error") None true.

Definition forbidden : Error :=
  mkError "AxiosError" (Str "Request failed with status code 403")
          (Some (mkResponse 403 (Obj [("message", Str "Admins only")]))) true.

(** A stand-in for [JSON.parse], exact on the three texts it accepts and
    on ["undefined"], which is not JSON. *)
Definition SyntaxError : Error :=
  mkError "SyntaxError" (Str "Unexpected token u in JSON at position 0") None false.

Definition parse_stub (s : string) : settled value :=
  if String.eqb s "{}" then Fulfilled (Obj [])
  else if String.eqb s "null" then Fulfilled Null
  else if String.eqb s "true" then Fulfilled (Bool true)
  else Rejected SyntaxError.

Definition backend_token_only (_ : Api.Config) : settled Response :=
  Fulfilled (mkResponse 200 (Obj [("token", Str "abc")])).

(** Three quotes, two of them at the same price. *)
Definition quotes : list SortBy.item :=
  [ [("vendor", Str "b"); ("price", Num 2)];
    [("vendor", Str "a"); ("price", Num 1)];
    [("vendor", Str "c"); ("price", Num 2)] ].

Definition no_coercion (_ _ : value) : bool := false.

(** The property names of [Object.prototype]. *)
Definition object_prototype_names (k : string) : bool :=
  existsb (String.eqb k)
    [ "constructor"; "hasOwnProperty"; "isPrototypeOf"; "propertyIsEnumerable";
      "toLocaleString"; "toString"; "valueOf"; "__proto__";
      "__defineGetter__"; "__defineSetter__"; "__lookupGetter__";
      "__lookupSetter__" ].

Definition orders : list SortBy.item :=
  [ [("status", Str "pending")]; [("status", Str "approved")];
    [("status", Str "pending")] ].

Definition odd_order : SortBy.item := [("status", Str "constructor")].

Definition two_items : list VendorSelect.Item :=
  [ VendorSelect.mkItem "1" "Cement"; VendorSelect.mkItem "2" "Steel" ].

Definition three_clicks : list (string * value) :=
  [ ("1", Str "v1"); ("2", Str "v7"); ("1", Str "v3") ].


Definition backend_null_body (_ : Api.Config) : settled Response :=
  Fulfilled (mkResponse 200 Null).

Definition rejects_with (reason : thrown) (_ : list value) : settled value :=
  Rejected reason.

Definition page_rejects_with (reason : thrown) (_ _ : Z)
  : settled UsePaginatedApi.Result :=
  Rejected reason.

End Samples.

(* ===================================================================== *)
(** * Properties *)
(* ===================================================================== *)

(** ** The interceptor pipeline *)

Section Interceptors.

Implicit Types (w : Browser) (config : Api.Config) (error : Error).

(** The request arm reads the store and nothing else. *)
Lemma request_fulfilled_browser config w :
  fst (Api.request_fulfilled config w) = w.
Proof.
  unfold Api.request_fulfilled, bind, getItem, ret. simpl.
  destruct (localStorage w !! "token") as [t|]; simpl; [|reflexivity].
  destruct (String.eqb t ""); reflexivity.
Qed.

Lemma request_fulfilled_never_fails config w :
  exists config', Api.request_fulfilled config w = (w, Fulfilled config').
Proof.
  unfold Api.request_fulfilled, bind, getItem, ret. simpl.
  destruct (localStorage w !! "token") as [t|]; simpl; [|eauto].
  destruct (String.eqb t ""); simpl; eauto.
Qed.

(** A stored token that is the empty string counts as no session: the
    guard [if (token)] is a truthiness test. *)
Lemma request_fulfilled_empty_token config w :
  localStorage w !! "token" = Some "" ->
  Api.request_fulfilled config w = (w, Fulfilled config).
Proof.
  intros H. unfold Api.request_fulfilled, bind, getItem, ret. simpl.
  rewrite H. reflexivity.
Qed.

(** C2.  The request arm always returns a descriptor and leaves the
    browser alone.  When a session exists ([isAuthenticated], i.e. a
    non-empty stored token [t]) the descriptor's [Authorization] header is
    exactly ["Bearer " ++ t] and nothing else of the descriptor changes;
    when no session exists the descriptor is returned as it came, so no
    authorization header is set. *)
Theorem request_arm_bearer_token config w :
  exists config',
    Api.request_fulfilled config w = (w, Fulfilled config') /\
    (snd (AuthService.isAuthenticated w) = Fulfilled true ->
     exists t, localStorage w !! "token" = Some t /\
       Api.headers config' !! "Authorization" = Some ("Bearer " +:+ t) /\
       (forall h, h <> "Authorization" ->
                  Api.headers config' !! h = Api.headers config !! h) /\
       Api.url config' = Api.url config /\
       Api.method config' = Api.method config /\
       Api.body config' = Api.body config) /\
    (snd (AuthService.isAuthenticated w) = Fulfilled false ->
     config' = config).
Proof.
  unfold Api.request_fulfilled, AuthService.isAuthenticated, bind, getItem, ret.
  simpl.
  destruct (localStorage w !! "token") as [t|] eqn:Htok; simpl.
  - destruct (String.eqb t "") eqn:He; simpl.
    + exists config. split; [reflexivity|]. split; [discriminate|reflexivity].
    + eexists. split; [reflexivity|]. split; [|discriminate].
      intros _. exists t. simpl. split; [reflexivity|].
      split; [apply lookup_insert_eq|].
      split; [|auto].
      intros h Hh. apply lookup_insert_ne. congruence.
  - exists config. split; [reflexivity|]. split; [discriminate|reflexivity].
Qed.

Lemma request_arm_bearer_token_witness :
  (exists config',
     Api.request_fulfilled sample_config logged_in = (logged_in, Fulfilled config') /\
     Api.headers config' !! "Authorization" = Some "Bearer abc") /\
  Api.request_fulfilled sample_config logged_out = (logged_out, Fulfilled sample_config).
Proof.
  split.
  - destruct (request_arm_bearer_token sample_config logged_in)
      as (c & Hrun & Hin & _).
    exists c. split; [exact Hrun|].
    destruct (Hin eq_refl) as (t & Ht & Hh & _).
    vm_compute in Ht. injection Ht as <-. exact Hh.
  - destruct (request_arm_bearer_token sample_config logged_out)
      as (c & Hrun & _ & Hout).
    rewrite <- (Hout eq_refl) at 2. exact Hrun.
Defined.

(** C1.  A failure carrying a response with status 401: afterwards the
    stored token and the cached user are gone (and only they),
    [window.location.href] has been assigned ['/login'] exactly once,
    nothing is logged, and the promise rejects with the failure that came
    in. *)
Theorem response_401_clears_session error r w :
  response error = Some r ->
  status r = 401 ->
  let (w', out) := Api.response_rejected error w in
  localStorage w' !! "token" = None /\
  localStorage w' !! "user" = None /\
  localStorage w' = delete "user" (delete "token" (localStorage w)) /\
  navigations w' = navigations w ++ ["/login"] /\
  console w' = console w /\
  out = Rejected error.
Proof.
  intros Hr Hs. unfold Api.response_rejected. rewrite Hr.
  unfold Api.on_status. rewrite Hs. simpl.
  repeat split.
  - rewrite lookup_delete_ne by discriminate. apply lookup_delete_eq.
  - apply lookup_delete_eq.
Qed.

Lemma response_401_clears_session_witness :
  let (w', out) := Api.response_rejected unauthorized logged_in in
  localStorage w' !! "token" = None /\
  localStorage w' !! "user" = None /\
  localStorage w' = delete "user" (delete "token" (localStorage logged_in)) /\
  navigations w' = navigations logged_in ++ ["/login"] /\
  console w' = console logged_in /\
  out = Rejected unauthorized.
Proof.
  exact (response_401_clears_session unauthorized _ logged_in eq_refl eq_refl).
Defined.

End Interceptors.

Section OtherStatuses.

Implicit Types (w : Browser) (error : Error) (r : Response).

(** No retry: the rejected arm never turns a failure into a response. *)
Lemma response_rejected_never_fulfils error w :
  exists e, snd (Api.response_rejected error w) = Rejected e.
Proof.
  unfold Api.response_rejected, bind.
  destruct (response error) as [r|].
  - unfold Api.on_status, bind, lift.
    destruct (Z.eqb (status r) 401); simpl; [eauto|].
    destruct (Z.eqb (status r) 403), (Z.eqb (status r) 404),
      (Z.eqb (status r) 500), (get (data r) "message"); simpl; eauto.
  - destruct (request error); simpl; eauto.
Qed.

(** Every status other than 401 leaves the session store and the
    location alone, whatever the body. *)
Lemma response_non401_session_unchanged error r w :
  response error = Some r ->
  status r <> 401 ->
  localStorage (fst (Api.response_rejected error w)) = localStorage w /\
  navigations (fst (Api.response_rejected error w)) = navigations w.
Proof.
  intros Hr Hs. unfold Api.response_rejected, bind. rewrite Hr.
  unfold Api.on_status, bind, lift.
  destruct (Z.eqb_spec (status r) 401) as [E|_]; [contradiction|].
  destruct (Z.eqb (status r) 403), (Z.eqb (status r) 404),
    (Z.eqb (status r) 500), (get (data r) "message"); simpl; auto.
Qed.

(** With a body that is neither [null] nor [undefined] the original
    failure is what the caller gets. *)
Lemma response_non401_defined_body error r w :
  response error = Some r ->
  status r <> 401 ->
  defined (data r) = true ->
  snd (Api.response_rejected error w) = Rejected error.
Proof.
  intros Hr Hs Hd. unfold Api.response_rejected, bind. rewrite Hr.
  unfold Api.on_status, bind, lift.
  destruct (Z.eqb_spec (status r) 401) as [E|_]; [contradiction|].
  destruct (data r); try discriminate Hd;
    destruct (Z.eqb (status r) 403), (Z.eqb (status r) 404),
      (Z.eqb (status r) 500); reflexivity.
Qed.

(** With a [null] or [undefined] body the read [data.message] throws
    inside the handler: nothing is logged and the caller gets the
    [TypeError]. *)
Lemma response_non401_nullish_body error r w :
  response error = Some r ->
  status r <> 401 ->
  defined (data r) = false ->
  Api.response_rejected error w = (w, Rejected (TypeError "message")).
Proof.
  intros Hr Hs Hd. unfold Api.response_rejected, bind. rewrite Hr.
  unfold Api.on_status, bind, lift.
  destruct (Z.eqb_spec (status r) 401) as [E|_]; [contradiction|].
  destruct (data r); try discriminate Hd;
    destruct (Z.eqb (status r) 403), (Z.eqb (status r) 404),
      (Z.eqb (status r) 500); reflexivity.
Qed.

(** C8.  At a response with status 500 or 403 whose body is absent
    ([null] or [undefined]) the caller's promise rejects and the session,
    the location and the console are untouched, but the rejection is the
    [TypeError] raised by the read [data.message], not the original
    failure. *)
Theorem response_absent_body_loses_failure :
  Api.response_rejected server_error_null_body logged_in
    = (logged_in, Rejected (TypeError "message")) /\
  TypeError "message" <> server_error_null_body /\
  Api.response_rejected forbidden_no_body logged_in
    = (logged_in, Rejected (TypeError "message")) /\
  TypeError "message" <> forbidden_no_body.
Proof.
  split; [reflexivity|]. split; [discriminate|].
  split; [reflexivity | discriminate].
Qed.

End OtherStatuses.

(** ** The login flow *)

Lemma response_rejected_primitive_never_fulfils p w :
  exists e, snd (Api.response_rejected_primitive p w) = Rejected e.
Proof. destruct p; simpl; eauto. Qed.

(** A call through the instance that resolves has not touched the
    browser: only the rejected arm of the response interceptor writes. *)
Lemma request_fulfilled_inv send config w r :
  snd (Api.request send config w) = Fulfilled r ->
  Api.request send config w = (w, Fulfilled r).
Proof.
  unfold Api.request, bind.
  destruct (request_fulfilled_never_fails config w) as [c ->].
  destruct (send c) as [r'|[e|p]].
  - simpl. intros [= ->]. reflexivity.
  - intros H. destruct (response_rejected_never_fulfils e w) as [e' He'].
    rewrite He' in H. discriminate.
  - intros H. destruct (response_rejected_primitive_never_fulfils p w) as [e' He'].
    rewrite He' in H. discriminate.
Qed.

Lemma get_defined v k :
  defined v = true -> get v k = Fulfilled (get_opt v k).
Proof. destruct v; simpl; intros H; try discriminate; reflexivity. Qed.

Lemma get_fulfilled_defined v k x :
  get v k = Fulfilled x -> defined v = true /\ x = get_opt v k.
Proof. destruct v; simpl; intros H; try discriminate; injection H as <-; auto. Qed.

Section Login.

Variable ToString : value -> string.
Variable JSON_stringify : value -> value.
Variable send : Api.Config -> settled Response.

Notation login := (AuthService.login ToString JSON_stringify send).
Notation post w credentials :=
  (Api.post send AuthService.endpoints_auth_login credentials w).

(** The body of [login] after the [await], for a response whose token is
    falsy (absent, [null], [""], [0], [false]): nothing is written. *)
Lemma login_falsy_token credentials w r token :
  snd (post w credentials) = Fulfilled r ->
  get (data r) "token" = Fulfilled token ->
  truthy token = false ->
  login credentials w = (w, Fulfilled (data r)).
Proof.
  intros Hpost Htok Hfalsy. unfold AuthService.login, bind.
  unfold Api.post in *. rewrite (request_fulfilled_inv _ _ _ _ Hpost).
  unfold lift. rewrite Htok, Hfalsy. reflexivity.
Qed.

(** A [null] or [undefined] body makes the read of [token] throw: the
    store is left as it was and [login] rejects. *)
Lemma login_nullish_body credentials w r :
  snd (post w credentials) = Fulfilled r ->
  defined (data r) = false ->
  login credentials w = (w, Rejected (TypeError "token")).
Proof.
  intros Hpost Hd. unfold AuthService.login, bind.
  unfold Api.post in *. rewrite (request_fulfilled_inv _ _ _ _ Hpost).
  unfold lift. destruct (data r); try discriminate Hd; reflexivity.
Qed.

(** A failed call (the instance rejects) never reaches the writes. *)
Lemma login_rejected credentials w e :
  snd (post w credentials) = Rejected e ->
  login credentials w = (fst (post w credentials), Rejected e).
Proof.
  intros Hpost. unfold AuthService.login, bind.
  destruct (Api.post send AuthService.endpoints_auth_login credentials w)
    as [w' [r|e']]; simpl in *; congruence.
Qed.

(** C9.  When the call resolves with a response whose body carries a
    (truthy) token, the store afterwards maps ["token"] to that token and
    ["user"] to the serialized user of the same body, every other key is
    as before, and [login] resolves with the whole body.  Values reach
    the store through the two built-ins: the string conversion of
    [setItem] and [JSON.stringify]. *)
Theorem login_stores_token_and_user credentials w r token :
  snd (post w credentials) = Fulfilled r ->
  get (data r) "token" = Fulfilled token ->
  truthy token = true ->
  let (w', out) := login credentials w in
  localStorage w' !! "token" = Some (ToString token) /\
  localStorage w' !! "user"
    = Some (ToString (JSON_stringify (get_opt (data r) "user"))) /\
  (forall k, k <> "token" -> k <> "user" ->
             localStorage w' !! k = localStorage w !! k) /\
  navigations w' = navigations w /\
  console w' = console w /\
  out = Fulfilled (data r).
Proof.
  intros Hpost Htok Htruthy. unfold AuthService.login, bind.
  unfold Api.post in *. rewrite (request_fulfilled_inv _ _ _ _ Hpost).
  unfold lift. rewrite Htok, Htruthy.
  destruct (get_fulfilled_defined _ _ _ Htok) as [Hd _].
  rewrite (get_defined _ "user" Hd). simpl.
  split; [|split; [|split; [|auto]]].
  - rewrite lookup_insert_ne by discriminate. apply lookup_insert_eq.
  - apply lookup_insert_eq.
  - intros k Hk1 Hk2. rewrite !lookup_insert_ne by congruence. reflexivity.
Qed.

(** C10, as the code has it.  When the call resolves with a response
    whose body has no [token] field, [login] writes nothing: the browser,
    and with it any session already stored, is exactly as before.  The
    body is returned when it is a value that has fields to look up; when
    it is [null] or [undefined] the read of [token] throws and [login]
    rejects with that [TypeError]. *)
Theorem login_without_token_keeps_store credentials w r :
  snd (post w credentials) = Fulfilled r ->
  get_opt (data r) "token" = Undefined ->
  login credentials w
  = (w, if defined (data r) then Fulfilled (data r)
        else Rejected (TypeError "token")).
Proof.
  intros Hpost Hno. destruct (defined (data r)) eqn:Hd.
  - apply (login_falsy_token credentials w r Undefined Hpost); [|reflexivity].
    rewrite (get_defined _ _ Hd), Hno. reflexivity.
  - apply (login_nullish_body credentials w r); assumption.
Qed.

End Login.

Lemma login_stores_token_and_user_witness :
  let (w', out) :=
    AuthService.login scalar_ToString shallow_stringify backend_grants
                      credentials_up logged_out in
  localStorage w' !! "token" = Some "abc" /\
  localStorage w' !! "user" = Some "{}" /\
  (forall k, k <> "token" -> k <> "user" ->
             localStorage w' !! k = localStorage logged_out !! k) /\
  navigations w' = navigations logged_out /\
  console w' = console logged_out /\
  out = Fulfilled (Obj [("token", Str "abc"); ("user", Obj [])]).
Proof.
  exact (login_stores_token_and_user scalar_ToString shallow_stringify
           backend_grants credentials_up logged_out _ (Str "abc")
           eq_refl eq_refl eq_refl).
Defined.

Lemma login_without_token_keeps_store_witness :
  AuthService.login scalar_ToString shallow_stringify backend_pending_approval
                    credentials_up logged_in
  = (logged_in, Fulfilled (Obj [("message", Str "Account awaiting approval")])).
Proof.
  exact (login_without_token_keeps_store scalar_ToString shallow_stringify
           backend_pending_approval credentials_up logged_in _
           eq_refl eq_refl).
Defined.

(** A response whose body is the JSON literal [null] carries no token
    field; [login] does not return that body but rejects. *)
Lemma login_null_body_is_not_returned :
  snd (Api.post backend_null_body AuthService.endpoints_auth_login
         credentials_up logged_in)
    = Fulfilled (mkResponse 200 Null) /\
  get_opt Null "token" = Undefined /\
  AuthService.login scalar_ToString shallow_stringify backend_null_body
                    credentials_up logged_in
    = (logged_in, Rejected (TypeError "token")) /\
  snd (AuthService.login scalar_ToString shallow_stringify backend_null_body
                         credentials_up logged_in)
    <> Fulfilled Null.
Proof.
  split; [reflexivity|]. split; [reflexivity|]. split; [reflexivity|].
  discriminate.
Qed.

(** ** The single-fetch resource state machine *)

Section SingleFetch.

Import UseApi.

Implicit Types (s : State) (err : Error).

(** The two [||] of the [catch] block, read as a priority list. *)
Lemma errorMessage_priority err :
  errorMessage err
  = if truthy (server_message err) then server_message err
    else if truthy (message err) then message err
    else Str "An error occurred".
Proof.
  unfold errorMessage, JS.or.
  destruct (truthy (server_message err)) eqn:H1; rewrite ?H1; [reflexivity|].
  destruct (truthy (message err)); reflexivity.
Qed.

(** The message is always a truthy value: the last alternative is a
    non-empty literal. *)
Lemma errorMessage_truthy err : truthy (errorMessage err) = true.
Proof.
  rewrite errorMessage_priority.
  destruct (truthy (server_message err)) eqn:H1; [exact H1|].
  destruct (truthy (message err)) eqn:H2; [exact H2|reflexivity].
Qed.

(** The part of [execute] after the [await] never writes [data] on a
    failure, whatever happened to the state meanwhile. *)
Lemma execute_settle_rejected_keeps_data s err :
  data (publish s (fst (execute_settle (Rejected err)))) = data s.
Proof. reflexivity. Qed.

(** On an error object the expression does not throw. *)
Lemma errorMessage_of_object err :
  errorMessage_of err = Fulfilled (errorMessage err).
Proof. reflexivity. Qed.

Lemma errorMessage_by_priority err : errorMessage err = message_by_priority err.
Proof.
  rewrite errorMessage_priority. unfold server_message, message_by_priority.
  destruct (response err) as [r|]; reflexivity.
Qed.


End SingleFetch.

(** ** The paginated resource state machine *)

Section Paginated.

Import UsePaginatedApi.

Implicit Types (h : Hook) (e : Event) (p : Z) (o : settled Result).

Lemma calls_issue p h : calls (issue p h) = calls h ++ [call_for h p].
Proof. reflexivity. Qed.

Lemma page_issue p h : page (state (issue p h)) = page (state h).
Proof. reflexivity. Qed.

Lemma totalPages_issue p h : totalPages (state (issue p h)) = totalPages (state h).
Proof. reflexivity. Qed.

Lemma setPage_same h : setPage (page (state h)) h = h.
Proof. unfold setPage. rewrite Z.eqb_refl. reflexivity. Qed.

Lemma setPage_changed p h :
  p <> page (state h) ->
  page (state (setPage p h)) = p /\
  totalPages (state (setPage p h)) = totalPages (state h) /\
  calls (setPage p h) = calls h ++ [call_for h p].
Proof.
  intros Hp. unfold setPage.
  destruct (Z.eqb_spec p (page (state h))) as [E|_]; [contradiction|].
  repeat split.
Qed.

Lemma page_setPage p h : page (state (setPage p h)) = p.
Proof.
  destruct (Z.eq_dec p (page (state h))) as [->|Hp].
  - rewrite setPage_same. reflexivity.
  - apply (setPage_changed p h Hp).
Qed.

Lemma totalPages_setPage p h :
  totalPages (state (setPage p h)) = totalPages (state h).
Proof.
  destruct (Z.eq_dec p (page (state h))) as [->|Hp].
  - rewrite setPage_same. reflexivity.
  - apply (setPage_changed p h Hp).
Qed.

(** What [setPage] adds to the log: one call for the new page, or
    nothing when the page is unchanged. *)
Lemma calls_setPage p h :
  calls (setPage p h)
  = calls h ++ (if Z.eqb p (page (state h)) then [] else [call_for h p]).
Proof.
  unfold setPage. destruct (Z.eqb p (page (state h))).
  - symmetry. apply app_nil_r.
  - reflexivity.
Qed.

Lemma issued_of h e added :
  calls (step h e) = calls h ++ added -> issued h e = added.
Proof.
  intros H. unfold issued. rewrite H. apply drop_app_length.
Qed.

Lemma unchanged_issues_nothing h e :
  step h e = h -> step h e = h /\ issued h e = [].
Proof.
  intros H. split; [exact H|]. unfold issued. rewrite H. apply drop_all.
Qed.

(** C6.  The navigation guards.  [nextPage] at or beyond the last page,
    [prevPage] at or before the first one and [goToPage] outside
    [1..totalPages] return the hook as it was: same page, no call
    issued.  A permitted change of page sets [page] and issues exactly
    one call of the bound operation, with [{page: n, limit: pageSize}]. *)
Theorem navigation_guards h :
  (page (state h) >= totalPages (state h) ->
     nextPage h = h /\ issued h NextPage = []) /\
  (page (state h) <= 1 ->
     prevPage h = h /\ issued h PrevPage = []) /\
  (forall n, n < 1 \/ n > totalPages (state h) ->
     goToPage n h = h /\ issued h (GoToPage n) = []) /\
  (forall n, 1 <= n <= totalPages (state h) -> n <> page (state h) ->
     page (state (goToPage n h)) = n /\
     issued h (GoToPage n) = [call_for h n]) /\
  (page (state h) < totalPages (state h) ->
     page (state (nextPage h)) = page (state h) + 1 /\
     issued h NextPage = [call_for h (page (state h) + 1)]) /\
  (page (state h) > 1 ->
     page (state (prevPage h)) = page (state h) - 1 /\
     issued h PrevPage = [call_for h (page (state h) - 1)]).
Proof.
  split; [|split; [|split; [|split; [|split]]]].
  - intros H. apply (unchanged_issues_nothing h NextPage). simpl. unfold nextPage.
    destruct (Z.ltb_spec (page (state h)) (totalPages (state h))); [lia|reflexivity].
  - intros H. apply (unchanged_issues_nothing h PrevPage). simpl. unfold prevPage.
    destruct (Z.gtb_spec (page (state h)) 1); [lia|reflexivity].
  - intros n H. apply (unchanged_issues_nothing h (GoToPage n)). simpl. unfold goToPage.
    destruct (Z.geb_spec n 1); simpl; [|reflexivity].
    destruct (Z.leb_spec n (totalPages (state h))); [lia|reflexivity].
  - intros n [H1 H2] Hn.
    assert (Hgo : goToPage n h = setPage n h).
    { unfold goToPage.
      destruct (Z.geb_spec n 1); simpl; [|lia].
      destruct (Z.leb_spec n (totalPages (state h))); [reflexivity|lia]. }
    split.
    + rewrite Hgo. apply page_setPage.
    + apply issued_of. simpl. rewrite Hgo. apply (setPage_changed n h Hn).
  - intros H.
    assert (Hgo : nextPage h = setPage (page (state h) + 1) h).
    { unfold nextPage.
      destruct (Z.ltb_spec (page (state h)) (totalPages (state h))); [reflexivity|lia]. }
    split.
    + rewrite Hgo. apply page_setPage.
    + apply issued_of. simpl. rewrite Hgo. apply setPage_changed. lia.
  - intros H.
    assert (Hgo : prevPage h = setPage (page (state h) - 1) h).
    { unfold prevPage.
      destruct (Z.gtb_spec (page (state h)) 1); [reflexivity|lia]. }
    split.
    + rewrite Hgo. apply page_setPage.
    + apply issued_of. simpl. rewrite Hgo. apply setPage_changed. lia.
Qed.

End Paginated.

Section FetchTriggers.

Import UsePaginatedApi.

Implicit Types (h : Hook) (e : Event) (o : settled Result).

Lemma calls_settle o h : calls (settle o h) = calls h.
Proof. unfold settle. destruct (pending h); reflexivity. Qed.

Lemma page_settle o h : page (state (settle o h)) = page (state h).
Proof.
  unfold settle. destruct (pending h); [reflexivity|].
  simpl. unfold fetch_settle.
  destruct o as [[|l|d tp ti t]|[err|[]]]; reflexivity.
Qed.

Lemma navigation_is_setPage h e :
  match e with
  | NextPage | PrevPage | GoToPage _ => step h e = setPage (target h e) h
  | _ => True
  end.
Proof.
  destruct e as [| |n|n|q|o]; simpl; try exact I.
  - unfold nextPage.
    destruct (Z.ltb (page (state h)) (totalPages (state h)));
      [reflexivity | symmetry; apply setPage_same].
  - unfold prevPage.
    destruct (Z.gtb (page (state h)) 1);
      [reflexivity | symmetry; apply setPage_same].
  - unfold goToPage.
    destruct (Z.geb n 1 && Z.leb n (totalPages (state h)));
      [reflexivity | symmetry; apply setPage_same].
Qed.

(** C7, as the code has it.  The log of calls only grows, and what an
    event adds is: for a navigation action, one call for the new page if
    the page changed and nothing if it did not; for [refetch], one call
    (for the given page, by default the current one); for a render, one
    call for the current page if the bound operation or [pageSize]
    differ from the previous render and nothing otherwise; for the
    settlement of a call, nothing.  Mounting issues one call for the
    initial page. *)
Theorem fetch_triggers h e :
  calls (step h e) = calls h ++ issued h e /\
  issued h e =
    match e with
    | NextPage | PrevPage | GoToPage _ =>
        if Z.eqb (page (state (step h e))) (page (state h)) then []
        else [call_for h (page (state (step h e)))]
    | Refetch n =>
        [call_for h (match n with Some k => k | None => page (state h) end)]
    | Render q =>
        if props_eqb q (props h) then []
        else [mkCall (apiFunction q) (page (state h)) (pageSize q)]
    | Settle _ => []
    end /\
  (forall q initialPage,
     calls (mount q initialPage)
     = [mkCall (apiFunction q) initialPage (pageSize q)]).
Proof.
  assert (Hnav : forall e', match e' with
            | NextPage | PrevPage | GoToPage _ =>
                calls (step h e') = calls h ++
                  (if Z.eqb (page (state (step h e'))) (page (state h)) then []
                   else [call_for h (page (state (step h e')))])
            | _ => True end).
  { intros e'. pose proof (navigation_is_setPage h e') as H.
    destruct e'; try exact I; rewrite H, page_setPage; apply calls_setPage. }
  assert (Hadd : exists added, calls (step h e) = calls h ++ added /\
            added = match e with
              | NextPage | PrevPage | GoToPage _ =>
                  if Z.eqb (page (state (step h e))) (page (state h)) then []
                  else [call_for h (page (state (step h e)))]
              | Refetch n =>
                  [call_for h (match n with Some k => k | None => page (state h) end)]
              | Render q =>
                  if props_eqb q (props h) then []
                  else [mkCall (apiFunction q) (page (state h)) (pageSize q)]
              | Settle _ => []
              end).
  { eexists. split; [|reflexivity].
    pose proof (Hnav e) as H.
    destruct e as [| |n|n|q|o]; try exact H.
    - reflexivity.
    - simpl. unfold render. destruct (props_eqb q (props h)); simpl.
      + symmetry. apply app_nil_r.
      + reflexivity.
    - simpl. rewrite calls_settle. symmetry. apply app_nil_r. }
  destruct Hadd as (added & Hcalls & Hadded).
  rewrite (issued_of h e added Hcalls).
  split; [exact Hcalls|]. split; [exact Hadded|]. reflexivity.
Qed.

End FetchTriggers.

Section PageBounds.

Import UsePaginatedApi.

Implicit Types (h : Hook) (e : Event) (o : settled Result).

Lemma totalPages_fetch_settle o (s : State) :
  totalPages (publish s (fst (fetch_settle o)))
  = match reported o with Some n => n | None => totalPages s end.
Proof. destruct o as [[|l|d tp ti t]|[err|[]]]; reflexivity. Qed.

Lemma page_fetch_settle o (s : State) :
  page (publish s (fst (fetch_settle o))) = page s.
Proof. destruct o as [[|l|d tp ti t]|[err|[]]]; reflexivity. Qed.

(** No event takes the page below 1. *)
Lemma step_page_positive h e :
  1 <= page (state h) -> 1 <= page (state (step h e)).
Proof.
  intros H. pose proof (navigation_is_setPage h e) as Hnav.
  destruct e as [| |n|n|q|o]; simpl in *.
  - rewrite Hnav, page_setPage. simpl.
    destruct (Z.ltb (page (state h)) (totalPages (state h))); lia.
  - rewrite Hnav, page_setPage. simpl.
    destruct (Z.gtb_spec (page (state h)) 1); lia.
  - rewrite Hnav, page_setPage. simpl.
    destruct (Z.geb_spec n 1); simpl; [|lia].
    destruct (Z.leb n (totalPages (state h))); lia.
  - exact H.
  - unfold render. destruct (props_eqb q (props h)); exact H.
  - rewrite page_settle. exact H.
Qed.

(** The guards keep the page inside the interval; a settlement does so
    when it is admissible. *)
Lemma step_in_bounds h e :
  in_bounds h -> admissible h e -> in_bounds (step h e).
Proof.
  unfold in_bounds. intros H Hadm.
  pose proof (navigation_is_setPage h e) as Hnav.
  destruct e as [| |n|n|q|o]; simpl in *.
  - rewrite Hnav, page_setPage, totalPages_setPage. simpl.
    destruct (Z.ltb_spec (page (state h)) (totalPages (state h))); lia.
  - rewrite Hnav, page_setPage, totalPages_setPage. simpl.
    destruct (Z.gtb_spec (page (state h)) 1); lia.
  - rewrite Hnav, page_setPage, totalPages_setPage. simpl.
    destruct (Z.geb_spec n 1); simpl; [|lia].
    destruct (Z.leb_spec n (totalPages (state h))); lia.
  - exact H.
  - unfold render. destruct (props_eqb q (props h)); exact H.
  - unfold settle. destruct (pending h); [exact H|]. simpl.
    rewrite page_fetch_settle, totalPages_fetch_settle.
    destruct (reported o); lia.
Qed.

Lemma run_in_bounds es : forall h,
  in_bounds h -> admissible_run h es -> in_bounds (run h es).
Proof.
  induction es as [|e es IH]; intros h Hb Hadm; simpl in *.
  - exact Hb.
  - destruct Hadm as [He Hes]. apply IH; [|exact Hes].
    apply step_in_bounds; assumption.
Qed.

Lemma run_page_positive es : forall h,
  1 <= page (state h) -> 1 <= page (state (run h es)).
Proof.
  induction es as [|e es IH]; intros h Hb; simpl.
  - exact Hb.
  - apply IH. apply step_page_positive. exact Hb.
Qed.

(** C5, as the code has it.  The hook never clamps [page].  Constructed
    with an initial page of at least 1, [page] stays at least 1 in every
    reachable state; and once a fetch has completed that wrote
    [totalPages], [page] lies in [1, max(totalPages, 1)] from that
    settlement on, as long as that settlement and the later ones are
    admissible.  Every navigation action is followed by its render. *)
Theorem page_within_bounds (q : Props) (initialPage : Z)
    (pre post : list Event) (o : settled Result) :
  1 <= initialPage ->
  (forall es, 1 <= page (state (run (mount q initialPage) es))) /\
  ((0 < pending (run (mount q initialPage) pre))%nat ->
   reported o <> None ->
   admissible_run (run (mount q initialPage) pre) (Settle o :: post) ->
   in_bounds (run (mount q initialPage) (pre ++ Settle o :: post))).
Proof.
  intros Hip. split.
  - intros es. apply run_page_positive. exact Hip.
  - intros Hpending Hwrites [Hadm Hpost].
    unfold run at 1. rewrite fold_left_app. fold (run (mount q initialPage) pre).
    set (h := run (mount q initialPage) pre) in *.
    change (in_bounds (run (step h (Settle o)) post)).
    apply run_in_bounds; [|exact Hpost].
    assert (Hpos : 1 <= page (state h)) by (apply run_page_positive; exact Hip).
    unfold in_bounds. simpl. unfold settle.
    destruct (pending h) as [|n]; [lia|]. simpl.
    rewrite page_fetch_settle, totalPages_fetch_settle.
    simpl in Hadm. destruct (reported o) as [k|]; [lia|contradiction].
Qed.

(** With the default initial page the interval holds from the mount on,
    before any fetch has completed. *)
Lemma first_page_within_bounds (q : Props) (es : list Event) :
  admissible_run (mount q 1) es -> in_bounds (run (mount q 1) es).
Proof.
  intros H. apply run_in_bounds; [|exact H]. unfold in_bounds. simpl. lia.
Qed.

(** One navigation call in an event handler is the event of the run
    model. *)
Lemma tick_single (a : Batched.Action) h :
  Batched.tick [a] h = step h (Batched.event_of a).
Proof.
  pose proof (navigation_is_setPage h (Batched.event_of a)) as H.
  destruct a; simpl in H; unfold Batched.tick; simpl; rewrite H; reflexivity.
Qed.

End PageBounds.

(** ** Failures in the two machines *)

Section Failures.

(** The paginated machine's [refetch] records the failure and resolves:
    its [catch] block has no [throw]. *)
Lemma paginated_refetch_swallows_failure :
  UsePaginatedApi.fetchData always_fails 10 1
  = ([UsePaginatedApi.SetLoading true;
      UsePaginatedApi.SetError Null;
      UsePaginatedApi.SetError (Str "Failed to fetch data");
      UsePaginatedApi.SetLoading false],
     Fulfilled Undefined) /\
  always_fails 1 10 = Rejected boom /\
  snd (UsePaginatedApi.fetchData always_fails 10 1) <> Rejected boom.
Proof.
  split; [reflexivity|]. split; [reflexivity|]. discriminate.
Qed.

Lemma paginated_message_truthy err :
  truthy (JS.or (server_message err) (Str "Failed to fetch data")) = true.
Proof.
  unfold JS.or. destruct (truthy (server_message err)) eqn:H; [exact H|reflexivity].
Qed.

Lemma message_by_priority_truthy (err : Error) :
  truthy (message_by_priority err) = true.
Proof. rewrite <- errorMessage_by_priority. apply errorMessage_truthy. Qed.

Lemma failure_message_paginated (err : Error) :
  UsePaginatedApi.failure_message err = Fulfilled (paginated_message err).
Proof.
  unfold UsePaginatedApi.failure_message, paginated_message, JS.or. simpl.
  destruct (response err) as [r|]; reflexivity.
Qed.

Lemma paginated_message_by_words_truthy (err : Error) :
  truthy (paginated_message err) = true.
Proof.
  unfold paginated_message. destruct (response err) as [r|]; [|reflexivity].
  destruct (truthy (get_opt (data r) "message")) eqn:H; [exact H|reflexivity].
Qed.

(** C4, as the code has it.  When the bound operation fails with an
    error object, both machines turn the failure into a truthy [error]
    value; [execute]/[refetch] of the single-fetch machine then rejects
    with the original failure, while the paginated machine's [refetch]
    resolves (with [undefined]).  When it fails with a primitive other
    than [null]/[undefined], the same holds with the fixed text of each
    machine.  When it fails with [null] or [undefined], the [catch] block
    of either machine throws: no message is set ([error] stays cleared)
    and both [execute] and the paginated [refetch] reject with that
    [TypeError], not with the original value. *)
Theorem failure_surfaces_in_both_machines :
  (forall (err : Error) apiFunction args s,
     apiFunction args = Rejected err ->
     let (us, out) := UseApi.execute apiFunction args in
     UseApi.error (UseApi.publish s us) = message_by_priority err /\
     truthy (message_by_priority err) = true /\
     out = Rejected err) /\
  (forall (err : Error) apiFunction pageSize pageNum s,
     apiFunction pageNum pageSize = Rejected err ->
     let (us, out) := UsePaginatedApi.fetchData apiFunction pageSize pageNum in
     UsePaginatedApi.error (UsePaginatedApi.publish s us) = paginated_message err /\
     truthy (paginated_message err) = true /\
     out = Fulfilled Undefined) /\
  (forall (p : primitive) apiFunction args s,
     apiFunction args = Rejected (Thrown p) ->
     let (us, out) := UseApi.execute apiFunction args in
     UseApi.error (UseApi.publish s us)
       = (if nullish p then Null else Str "An error occurred") /\
     out = if nullish p then Rejected (TypeError "response")
           else Rejected (Thrown p)) /\
  (forall (p : primitive) apiFunction pageSize pageNum s,
     apiFunction pageNum pageSize = Rejected (Thrown p) ->
     let (us, out) := UsePaginatedApi.fetchData apiFunction pageSize pageNum in
     UsePaginatedApi.error (UsePaginatedApi.publish s us)
       = (if nullish p then Null else Str "Failed to fetch data") /\
     out = if nullish p then Rejected (TypeError "response")
           else Fulfilled Undefined).
Proof.
  split; [|split; [|split]].
  - intros err apiFunction args s H. unfold UseApi.execute. rewrite H. simpl.
    split; [apply errorMessage_by_priority|].
    split; [apply message_by_priority_truthy|reflexivity].
  - intros err apiFunction pageSize pageNum s H.
    unfold UsePaginatedApi.fetchData, UsePaginatedApi.fetch_settle. rewrite H.
    cbn [UsePaginatedApi.try_body]. rewrite failure_message_paginated. simpl.
    split; [reflexivity|].
    split; [apply paginated_message_by_words_truthy|reflexivity].
  - intros p apiFunction args s H. unfold UseApi.execute. rewrite H.
    destruct p; simpl; split; reflexivity.
  - intros p apiFunction pageSize pageNum s H.
    unfold UsePaginatedApi.fetchData. rewrite H.
    destruct p; simpl; split; reflexivity.
Qed.

Lemma failure_surfaces_in_both_machines_witness :
  (let (us, out) := UseApi.execute (rejects_with forbidden) [] in
   UseApi.error (UseApi.publish (UseApi.initial false) us) = Str "Admins only" /\
   out = Rejected forbidden) /\
  (let (us, out) := UsePaginatedApi.fetchData (page_rejects_with boom) 10 1 in
   UsePaginatedApi.error (UsePaginatedApi.publish (UsePaginatedApi.initial 1) us)
     = Str "Failed to fetch data" /\
   out = Fulfilled Undefined) /\
  (let (us, out) := UseApi.execute (rejects_with (Thrown PNull)) [] in
   UseApi.error (UseApi.publish (UseApi.initial false) us) = Null /\
   out = Rejected (TypeError "response")) /\
  (let (us, out) :=
     UsePaginatedApi.fetchData (page_rejects_with (Thrown PUndefined)) 10 1 in
   UsePaginatedApi.error (UsePaginatedApi.publish (UsePaginatedApi.initial 1) us)
     = Null /\
   out = Rejected (TypeError "response")).
Proof.
  destruct failure_surfaces_in_both_machines as (Hsingle & Hpaged & Hsp & Hpp).
  split; [|split; [|split]].
  - destruct (Hsingle forbidden (rejects_with forbidden) []
                (UseApi.initial false) eq_refl) as (He & _ & Hout).
    split; [exact He | exact Hout].
  - destruct (Hpaged boom (page_rejects_with boom) 10 1
                (UsePaginatedApi.initial 1) eq_refl) as (He & _ & Hout).
    split; [exact He | exact Hout].
  - exact (Hsp PNull (rejects_with (Thrown PNull)) [] (UseApi.initial false) eq_refl).
  - exact (Hpp PUndefined (page_rejects_with (Thrown PUndefined)) 10 1
             (UsePaginatedApi.initial 1) eq_refl).
Defined.

End Failures.

Section Witnesses.

Import UsePaginatedApi.



Lemma navigation_guards_witness :
  nextPage on_last_page = on_last_page /\
  prevPage on_first_page = on_first_page /\
  goToPage 5 on_first_page = on_first_page /\
  (page (state (goToPage 2 on_first_page)) = 2 /\
   issued on_first_page (GoToPage 2) = [mkCall 0 2 10]).
Proof.
  destruct (navigation_guards on_last_page) as (Hnext & _).
  destruct (navigation_guards on_first_page) as (_ & Hprev & Hblocked & Hgo & _).
  split; [apply Hnext; vm_compute; discriminate|].
  split; [apply Hprev; vm_compute; discriminate|].
  split; [apply (Hblocked 5); right; reflexivity|].
  apply (Hgo 2); [split; vm_compute; discriminate | discriminate].
Defined.

Lemma page_within_bounds_witness :
  1 <= page (state (run (mount listing 2) browsing)) /\
  in_bounds (run (mount listing 2) ([PrevPage] ++ Settle three_pages :: browsing)).
Proof.
  destruct (page_within_bounds listing 2 [PrevPage] browsing three_pages)
    as [Hlow Hin]; [discriminate|].
  split; [apply Hlow|].
  apply Hin.
  - simpl. lia.
  - discriminate.
  - vm_compute. repeat split; discriminate.
Defined.

(** Two calls of [nextPage] in one event handler both pass the guard of
    the same render: from page 2 of 3 the hook lands on page 4. *)
Lemma two_nextPage_calls_in_one_handler_overshoot :
  let h := run on_first_page [NextPage; Settle three_pages] in
  page (state h) = 2 /\ totalPages (state h) = 3 /\
  page (state (Batched.tick [Batched.Next; Batched.Next] h)) = 4.
Proof. repeat split. Qed.

(** A machine constructed on page 5 of a resource that has 3 pages:
    after its first fetch has completed, [page] is still 5. *)
Lemma initial_page_beyond_totalPages :
  let h := run (mount listing 5) [Settle three_pages] in
  completed h = 1%nat /\
  page (state h) = 5 /\
  totalPages (state h) = 3 /\
  ~ (1 <= page (state h) <= Z.max (totalPages (state h)) 1).
Proof.
  simpl. repeat split. intros [_ H]. apply H. reflexivity.
Qed.

(** A resource that shrinks: on page 3 of 3, a refetch reports 1 page. *)
Lemma totalPages_shrinks_below_page :
  let h := run on_last_page
             [Refetch None; Settle (Fulfilled (Envelope (Arr []) (Some 1) None None))] in
  page (state h) = 3 /\ totalPages (state h) = 1.
Proof. split; reflexivity. Qed.

(** A render with another [pageSize] issues a call although the page is
    the same and [refetch] was not called. *)
Lemma render_with_new_pageSize_fetches :
  ~ (forall (h : Hook) (e : Event),
       issued h e <> [] ->
       page (state (step h e)) <> page (state h) \/ exists n, e = Refetch n).
Proof.
  intros claim.
  destruct (claim on_first_page (Render (mkProps 0 20))) as [Hpage|[n Hn]].
  - discriminate.
  - apply Hpage. reflexivity.
  - discriminate Hn.
Qed.

End Witnesses.

(* ===================================================================== *)
(** * Further properties *)
(* ===================================================================== *)

(** ** Response interceptor: failures other than 401 *)

Section ResponseArm.

Implicit Types (w : Browser) (error : Error) (r : Response).

(** A failure that carries no response (the network is down, the call
    timed out, or the request could not be built) never touches the
    session or the location: it adds exactly one console line, which
    tells the two cases apart, and the caller gets the same failure. *)
Theorem failure_without_response_is_reraised error w :
  response error = None ->
  let (w', out) := Api.response_rejected error w in
  localStorage w' = localStorage w /\
  navigations w' = navigations w /\
  console w' = console w ++
    [if request error
     then [Str "No response from server. Please check your connection."]
     else [Str "Error:"; message error]] /\
  out = Rejected error.
Proof.
  intros H. unfold Api.response_rejected, bind. rewrite H.
  destruct (request error); simpl; auto.
Qed.

Lemma failure_without_response_is_reraised_witness :
  let (w', out) := Api.response_rejected offline logged_in in
  localStorage w' = localStorage logged_in /\
  navigations w' = navigations logged_in /\
  console w' = console logged_in ++
    [[Str "No response from server. Please check your connection."]] /\
  out = Rejected offline.
Proof.
  exact (failure_without_response_is_reraised offline logged_in eq_refl).
Defined.

(** A failure with a status other than 401 and a body that is not
    [null]/[undefined]: one console line made of the label of the status
    (403, 404 and 500 have their own; every other status, 503 included,
    gets ["API Error:"]) and the body's [message], nothing else changes,
    and the caller gets the same failure. *)
Theorem failure_with_status_is_logged_and_reraised error r w :
  response error = Some r ->
  status r <> 401 ->
  defined (data r) = true ->
  let (w', out) := Api.response_rejected error w in
  localStorage w' = localStorage w /\
  navigations w' = navigations w /\
  console w' = console w ++
    [[Str (Services.status_label (status r)); get_opt (data r) "message"]] /\
  out = Rejected error.
Proof.
  intros Hr Hs Hd. unfold Api.response_rejected, bind. rewrite Hr.
  unfold Api.on_status, Services.status_label, bind, lift.
  destruct (Z.eqb_spec (status r) 401) as [E|_]; [contradiction|].
  rewrite (get_defined _ _ Hd).
  destruct (Z.eqb (status r) 403), (Z.eqb (status r) 404),
    (Z.eqb (status r) 500); simpl; auto.
Qed.

Lemma failure_with_status_is_logged_and_reraised_witness :
  let (w', out) := Api.response_rejected forbidden logged_in in
  localStorage w' = localStorage logged_in /\
  navigations w' = navigations logged_in /\
  console w' = console logged_in ++
    [[Str "Access forbidden:"; Str "Admins only"]] /\
  out = Rejected forbidden.
Proof.
  exact (failure_with_status_is_logged_and_reraised forbidden _ logged_in
           eq_refl ltac:(discriminate) eq_refl).
Defined.

End ResponseArm.

(** ** The pipeline as a whole *)

Section Pipeline.

Variable send : Api.Config -> settled Response.

Implicit Types (w : Browser) (config : Api.Config) (error : Error).

Lemma isAuthenticated_token w :
  snd (AuthService.isAuthenticated w)
  = Fulfilled (truthy_item (localStorage w !! "token")).
Proof. reflexivity. Qed.

Lemma request_fulfilled_logged_out config w :
  truthy_item (localStorage w !! "token") = false ->
  Api.request_fulfilled config w = (w, Fulfilled config).
Proof.
  intros H. unfold Api.request_fulfilled, bind, getItem, ret. simpl.
  destruct (localStorage w !! "token") as [t|]; [|reflexivity].
  rewrite H. reflexivity.
Qed.

Lemma request_fulfilled_logged_in config w t :
  localStorage w !! "token" = Some t -> t <> "" ->
  Api.request_fulfilled config w
  = (w, Fulfilled (Api.set_header "Authorization" ("Bearer " +:+ t) config)).
Proof.
  intros H Ht. unfold Api.request_fulfilled, bind, getItem, ret. simpl.
  rewrite H. simpl.
  destruct (String.eqb_spec t ""); [contradiction|reflexivity].
Qed.

(** What a call through the instance does when the transport answers
    401 to whatever it is sent. *)
Lemma request_401 config w error r :
  (forall c, send c = Rejected error) ->
  response error = Some r -> status r = 401 ->
  Api.request send config w
  = (mkBrowser (delete "user" (delete "token" (localStorage w)))
               (navigations w ++ ["/login"]) (console w),
     Rejected error).
Proof.
  intros Hsend Hr Hs. unfold Api.request, bind.
  destruct (request_fulfilled_never_fails config w) as [c ->].
  rewrite Hsend. unfold Api.response_rejected, bind. rewrite Hr.
  unfold Api.on_status. rewrite Hs. reflexivity.
Qed.

(** A call answered 401 ends the session for the calls that follow: the
    failure reaches the caller, ['/login'] is assigned once, the store no
    longer authenticates, and the request arm leaves every later
    descriptor without a bearer token. *)
Theorem unauthorized_call_ends_session config w error r :
  (forall c, send c = Rejected error) ->
  response error = Some r ->
  status r = 401 ->
  let (w', out) := Api.request send config w in
  out = Rejected error /\
  navigations w' = navigations w ++ ["/login"] /\
  snd (AuthService.isAuthenticated w') = Fulfilled false /\
  (forall config2, Api.request_fulfilled config2 w' = (w', Fulfilled config2)).
Proof.
  intros Hsend Hr Hs. rewrite (request_401 config w error r Hsend Hr Hs).
  assert (Hout : truthy_item
            (delete "user" (delete "token" (localStorage w)) !! "token") = false).
  { rewrite lookup_delete_ne by discriminate. rewrite lookup_delete_eq.
    reflexivity. }
  split; [reflexivity|]. split; [reflexivity|]. split.
  - rewrite isAuthenticated_token. simpl. rewrite Hout. reflexivity.
  - intros config2. apply request_fulfilled_logged_out. exact Hout.
Qed.

End Pipeline.

Lemma unauthorized_call_ends_session_witness :
  let (w', out) := Api.request backend_expired sample_config logged_in in
  out = Rejected unauthorized /\
  navigations w' = navigations logged_in ++ ["/login"] /\
  snd (AuthService.isAuthenticated w') = Fulfilled false /\
  (forall config2, Api.request_fulfilled config2 w' = (w', Fulfilled config2)).
Proof.
  exact (unauthorized_call_ends_session backend_expired sample_config logged_in
           unauthorized _ (fun _ => eq_refl) eq_refl eq_refl).
Defined.

(** ** Auth flows *)

Section Logout.

Implicit Types (w : Browser).

(** [logout] never fails and removes the two session keys and nothing
    else; afterwards the store does not authenticate and no user is
    cached, whatever was stored before; a second [logout] changes
    nothing. *)
Theorem logout_clears_session w :
  let (w1, out) := AuthService.logout w in
  out = Fulfilled tt /\
  localStorage w1 = delete "user" (delete "token" (localStorage w)) /\
  navigations w1 = navigations w /\
  console w1 = console w /\
  snd (AuthService.isAuthenticated w1) = Fulfilled false /\
  localStorage w1 !! "user" = None /\
  AuthService.logout w1 = (w1, Fulfilled tt).
Proof.
  unfold AuthService.logout, bind, removeItem. simpl.
  split; [reflexivity|]. split; [reflexivity|].
  split; [reflexivity|]. split; [reflexivity|]. split; [|split].
  - rewrite lookup_delete_ne by discriminate. rewrite lookup_delete_eq.
    reflexivity.
  - apply lookup_delete_eq.
  - rewrite (delete_delete (delete "user" _) "user" "token").
    rewrite delete_delete_eq.
    rewrite (delete_delete _ "token" "user"), delete_delete_eq.
    reflexivity.
Qed.

End Logout.

Section Session.

Variable ToString : value -> string.
Variable JSON_stringify : value -> value.
Variable JSON_parse : string -> settled value.
Variable send : Api.Config -> settled Response.

Notation login := (AuthService.login ToString JSON_stringify send).
Notation post w credentials :=
  (Api.post send AuthService.endpoints_auth_login credentials w).

Implicit Types (w : Browser) (r : Response).

(** The browser a successful [login] leaves behind. *)
Lemma login_run credentials w r token :
  snd (post w credentials) = Fulfilled r ->
  get (data r) "token" = Fulfilled token ->
  truthy token = true ->
  login credentials w
  = (mkBrowser
       (<["user" := ToString (JSON_stringify (get_opt (data r) "user"))]>
          (<["token" := ToString token]> (localStorage w)))
       (navigations w) (console w),
     Fulfilled (data r)).
Proof.
  intros Hpost Htok Htruthy. unfold AuthService.login, bind.
  unfold Api.post in *. rewrite (request_fulfilled_inv _ _ _ _ Hpost).
  unfold lift. rewrite Htok, Htruthy.
  destruct (get_fulfilled_defined _ _ _ Htok) as [Hd _].
  rewrite (get_defined _ "user" Hd). reflexivity.
Qed.

(** After a successful [login] the store authenticates and every later
    descriptor leaves the request arm with [Authorization] set to the
    bearer form of the token just stored (a token whose string form is
    not empty). *)
Theorem login_then_requests_carry_token credentials w r token :
  snd (post w credentials) = Fulfilled r ->
  get (data r) "token" = Fulfilled token ->
  truthy token = true ->
  ToString token <> "" ->
  let w' := fst (login credentials w) in
  snd (AuthService.isAuthenticated w') = Fulfilled true /\
  (forall config,
     Api.request_fulfilled config w'
     = (w', Fulfilled (Api.set_header "Authorization"
                         ("Bearer " +:+ ToString token) config))).
Proof.
  intros Hpost Htok Htruthy Hne.
  rewrite (login_run credentials w r token Hpost Htok Htruthy).
  cbn [fst]. cbv zeta.
  assert (Hlook : (<["user" := ToString (JSON_stringify (get_opt (data r) "user"))]>
                     (<["token" := ToString token]> (localStorage w)))
                  !! "token" = Some (ToString token)).
  { rewrite lookup_insert_ne by discriminate. apply lookup_insert_eq. }
  split.
  - rewrite isAuthenticated_token. cbn [localStorage]. rewrite Hlook. simpl.
    destruct (String.eqb_spec (ToString token) ""); [contradiction|reflexivity].
  - intros config. apply request_fulfilled_logged_in; [exact Hlook|exact Hne].
Qed.

(** [logout] after a successful [login] leaves the store as it was
    before the [login], minus any session that was there: the two keys
    are gone and every other key is untouched. *)
Theorem login_then_logout credentials w r token :
  snd (post w credentials) = Fulfilled r ->
  get (data r) "token" = Fulfilled token ->
  truthy token = true ->
  localStorage (fst (AuthService.logout (fst (login credentials w))))
  = delete "user" (delete "token" (localStorage w)).
Proof.
  intros Hpost Htok Htruthy.
  rewrite (login_run credentials w r token Hpost Htok Htruthy).
  unfold AuthService.logout, bind, removeItem. simpl.
  rewrite delete_insert_ne by discriminate.
  rewrite delete_insert_eq, delete_insert_eq.
  reflexivity.
Qed.

(** [getCurrentUser] gives back the user a [login] stored, provided the
    text [JSON.stringify] produced for it is not empty and [JSON.parse]
    reads it back. *)
Theorem login_then_getCurrentUser credentials w r token :
  snd (post w credentials) = Fulfilled r ->
  get (data r) "token" = Fulfilled token ->
  truthy token = true ->
  ToString (JSON_stringify (get_opt (data r) "user")) <> "" ->
  JSON_parse (ToString (JSON_stringify (get_opt (data r) "user")))
    = Fulfilled (get_opt (data r) "user") ->
  let w' := fst (login credentials w) in
  Services.getCurrentUser JSON_parse w'
  = (w', Fulfilled (get_opt (data r) "user")).
Proof.
  intros Hpost Htok Htruthy Hne Hparse.
  rewrite (login_run credentials w r token Hpost Htok Htruthy). simpl.
  unfold Services.getCurrentUser, bind, getItem. simpl.
  rewrite lookup_insert_eq. simpl.
  destruct (String.eqb_spec
              (ToString (JSON_stringify (get_opt (data r) "user"))) "");
    [contradiction|].
  unfold lift. rewrite Hparse. reflexivity.
Qed.

(** A [login] whose response carries a token but no [user] stores the
    text of [undefined] under ["user"]; [getCurrentUser] then throws what
    [JSON.parse] throws on that text instead of returning [null]. *)
Theorem login_without_user_breaks_getCurrentUser credentials w r token e :
  snd (post w credentials) = Fulfilled r ->
  get (data r) "token" = Fulfilled token ->
  truthy token = true ->
  get_opt (data r) "user" = Undefined ->
  JSON_stringify Undefined = Undefined ->
  ToString Undefined = "undefined" ->
  JSON_parse "undefined" = Rejected e ->
  let w' := fst (login credentials w) in
  localStorage w' !! "user" = Some "undefined" /\
  Services.getCurrentUser JSON_parse w' = (w', Rejected e).
Proof.
  intros Hpost Htok Htruthy Huser Hs Hts Hparse.
  rewrite (login_run credentials w r token Hpost Htok Htruthy). simpl.
  rewrite Huser, Hs, Hts.
  split; [apply lookup_insert_eq|].
  unfold Services.getCurrentUser, bind, getItem. simpl.
  rewrite lookup_insert_eq. simpl. unfold lift. rewrite Hparse. reflexivity.
Qed.

(** With nothing stored under ["user"], or the empty text, no parsing is
    attempted and [getCurrentUser] returns [null]. *)
Theorem getCurrentUser_without_user w :
  truthy_item (localStorage w !! "user") = false ->
  Services.getCurrentUser JSON_parse w = (w, Fulfilled Null).
Proof.
  intros H. unfold Services.getCurrentUser, bind, getItem. simpl.
  destruct (localStorage w !! "user") as [s|]; [|reflexivity].
  rewrite H. reflexivity.
Qed.

End Session.

Lemma login_then_requests_carry_token_witness :
  let w' := fst (AuthService.login scalar_ToString shallow_stringify
                   backend_grants credentials_up logged_out) in
  snd (AuthService.isAuthenticated w') = Fulfilled true /\
  (forall config,
     Api.request_fulfilled config w'
     = (w', Fulfilled (Api.set_header "Authorization" "Bearer abc" config))).
Proof.
  exact (login_then_requests_carry_token scalar_ToString shallow_stringify
           backend_grants credentials_up logged_out _ (Str "abc")
           eq_refl eq_refl eq_refl ltac:(discriminate)).
Defined.

Lemma login_then_logout_witness :
  localStorage
    (fst (AuthService.logout
            (fst (AuthService.login scalar_ToString shallow_stringify
                    backend_grants credentials_up logged_in))))
  = delete "user" (delete "token" (localStorage logged_in)).
Proof.
  exact (login_then_logout scalar_ToString shallow_stringify backend_grants
           credentials_up logged_in _ (Str "abc") eq_refl eq_refl eq_refl).
Defined.

Lemma login_then_getCurrentUser_witness :
  let w' := fst (AuthService.login scalar_ToString shallow_stringify
                   backend_grants credentials_up logged_out) in
  Services.getCurrentUser parse_stub w' = (w', Fulfilled (Obj [])).
Proof.
  exact (login_then_getCurrentUser scalar_ToString shallow_stringify parse_stub
           backend_grants credentials_up logged_out _ (Str "abc")
           eq_refl eq_refl eq_refl ltac:(discriminate) eq_refl).
Defined.

Lemma login_without_user_breaks_getCurrentUser_witness :
  let w' := fst (AuthService.login scalar_ToString shallow_stringify
                   backend_token_only credentials_up logged_out) in
  localStorage w' !! "user" = Some "undefined" /\
  Services.getCurrentUser parse_stub w' = (w', Rejected SyntaxError).
Proof.
  exact (login_without_user_breaks_getCurrentUser scalar_ToString
           shallow_stringify parse_stub backend_token_only credentials_up
           logged_out _ (Str "abc") SyntaxError
           eq_refl eq_refl eq_refl eq_refl eq_refl eq_refl eq_refl).
Defined.

Lemma getCurrentUser_without_user_witness :
  Services.getCurrentUser parse_stub logged_out = (logged_out, Fulfilled Null).
Proof.
  exact (getCurrentUser_without_user parse_stub logged_out eq_refl).
Defined.

(** ** The service facades *)

Section Facades.

Variable send : Api.Config -> settled Response.

Implicit Types (w : Browser) (r : Response) (call : IO value) (error : Error).

Lemma request_resolved config w r :
  (forall c, send c = Fulfilled r) ->
  Api.request send config w = (w, Fulfilled r).
Proof.
  intros Hsend. unfold Api.request, bind.
  destruct (request_fulfilled_never_fails config w) as [c ->].
  rewrite Hsend. reflexivity.
Qed.

Ltac facade_cases H :=
  unfold facades in H; simpl in H;
  repeat (destruct H as [<-|H]); [..|contradiction];
  unfold Services.register, Services.verify, Services.getProfile,
    Services.updateProfile, Services.boq_getById, Services.boq_create,
    Services.boq_update, Services.boq_delete, Services.getStats,
    Services.getRecent, Services.getStatistics, Services.check,
    Verbs.get, Verbs.put, Verbs.delete, Api.post, bind.

(** Every facade call that the backend answers successfully returns the
    response body and leaves the browser exactly as it was: [register]
    and [verify] included, so a token in the body of a [register]
    response is not stored. *)
Theorem facades_return_body_and_write_nothing id payload r call w :
  (forall c, send c = Fulfilled r) ->
  In call (facades send id payload) ->
  call w = (w, Fulfilled (data r)).
Proof.
  intros Hsend Hin.
  facade_cases Hin; rewrite (request_resolved _ w r Hsend); reflexivity.
Qed.

(** Every facade call that the backend answers with 401 rejects with
    that failure, removes the two session keys and assigns ['/login']
    once: an expired session is ended by whichever call meets it
    first. *)
Theorem facades_end_session_on_401 id payload error r call w :
  (forall c, send c = Rejected error) ->
  response error = Some r ->
  status r = 401 ->
  In call (facades send id payload) ->
  call w
  = (mkBrowser (delete "user" (delete "token" (localStorage w)))
               (navigations w ++ ["/login"]) (console w),
     Rejected error).
Proof.
  intros Hsend Hr Hs Hin.
  facade_cases Hin; rewrite (request_401 send _ w error r Hsend Hr Hs);
    reflexivity.
Qed.

End Facades.

Lemma facades_return_body_and_write_nothing_witness :
  Services.register backend_grants credentials_up logged_out
  = (logged_out, Fulfilled (Obj [("token", Str "abc"); ("user", Obj [])])).
Proof.
  apply (facades_return_body_and_write_nothing backend_grants "7" credentials_up
           (mkResponse 200 (Obj [("token", Str "abc"); ("user", Obj [])]))).
  - intros c. reflexivity.
  - left. reflexivity.
Defined.

Lemma facades_end_session_on_401_witness :
  Services.boq_delete backend_expired "7" logged_in
  = (mkBrowser (delete "user" (delete "token" (localStorage logged_in)))
               (navigations logged_in ++ ["/login"]) (console logged_in),
     Rejected unauthorized).
Proof.
  apply (facades_end_session_on_401 backend_expired "7" Undefined unauthorized
           (mkResponse 401 (Obj [("message", Str "Token expired")]))).
  - intros c. reflexivity.
  - reflexivity.
  - reflexivity.
  - simpl. do 7 right. left. reflexivity.
Defined.

(** ** Error messages *)

Section ErrorMessages.

Implicit Types (error : Error).

(** [getErrorMessage] on an error object always returns a non-empty
    (truthy) value, also when the response body is [null] or
    [undefined]; and whenever the body carries a truthy [message], it is
    that message, the same one [useApi] publishes.  On an argument that
    is not an object: [null] and [undefined] make the first read throw,
    any other primitive gets the last fixed text. *)
Theorem getErrorMessage_never_empty (error : Error) (p : primitive) :
  (exists m, Utils.getErrorMessage error = Fulfilled m /\ truthy m = true) /\
  (forall r, response error = Some r ->
     truthy (get_opt (data r) "message") = true ->
     Utils.getErrorMessage error = Fulfilled (get_opt (data r) "message") /\
     UseApi.errorMessage_of error = Fulfilled (get_opt (data r) "message")) /\
  Utils.getErrorMessage (Thrown p)
  = (if nullish p then Rejected (TypeError "response")
     else Fulfilled (Str "An unexpected error occurred")).
Proof.
  split; [|split].
  - unfold Utils.getErrorMessage, JS.or. simpl.
    destruct (response error) as [r|].
    + eexists. split; [reflexivity|].
      destruct (truthy (get_opt (JS.data r) "message")) eqn:Hm; simpl.
      * rewrite Hm. exact Hm.
      * destruct (truthy (get_opt (JS.data r) "error")) eqn:He; simpl;
          rewrite ?He; reflexivity.
    + destruct (request error); eexists; (split; [reflexivity|]);
        [reflexivity|].
      destruct (truthy (message error)) eqn:Hm; [exact Hm|reflexivity].
  - intros r Hr Hm. split.
    + unfold Utils.getErrorMessage, JS.or. simpl. rewrite Hr, Hm. simpl.
      rewrite Hm. reflexivity.
    + unfold UseApi.errorMessage_of, JS.or. simpl. rewrite Hr. simpl.
      rewrite Hm. simpl. rewrite Hm. reflexivity.
  - destruct p; reflexivity.
Qed.

Lemma getErrorMessage_never_empty_witness :
  Utils.getErrorMessage forbidden = Fulfilled (Str "Admins only") /\
  UseApi.errorMessage_of forbidden = Fulfilled (Str "Admins only").
Proof.
  destruct (getErrorMessage_never_empty forbidden PNull) as (_ & H & _).
  exact (H _ eq_refl eq_refl).
Defined.

End ErrorMessages.

(** ** useApi with calls in flight *)

Section OverlappingCalls.

Import UseApi UseApiRuns.

Implicit Types (h : Hook) (o : settled value).

Lemma loading_execute_settle o (s : State) :
  loading (publish s (fst (execute_settle o))) = false.
Proof. destruct o as [x|[e|[]]]; reflexivity. Qed.

Lemma step_settled_not_loading h e :
  (pending h = O -> loading (state h) = false) ->
  pending (step h e) = O -> loading (state (step h e)) = false.
Proof.
  intros IH. destruct e as [|o]; simpl.
  - discriminate.
  - destruct (pending h) as [|n] eqn:Hp; simpl.
    + intros _. apply IH. reflexivity.
    + intros _. apply loading_execute_settle.
Qed.

Lemma run_settled_not_loading es : forall h,
  (pending h = O -> loading (state h) = false) ->
  pending (run h es) = O -> loading (state (run h es)) = false.
Proof.
  induction es as [|e es IH]; intros h Hh; simpl.
  - exact Hh.
  - apply IH. apply step_settled_not_loading. exact Hh.
Qed.

(** Whether or not the hook auto-invokes, and whatever sequence of
    [execute] calls and settlements follows the mount: once no call is in
    flight, [loading] is [false]. *)
Theorem settled_hook_is_not_loading (callOnMount : bool) (es : list Event) :
  pending (run (mount callOnMount) es) = O ->
  loading (state (run (mount callOnMount) es)) = false.
Proof.
  apply run_settled_not_loading.
  destruct callOnMount; simpl; [discriminate|reflexivity].
Qed.

Lemma settled_hook_is_not_loading_witness :
  loading (state (run (mount true)
                    [Execute; Settle (Rejected boom); Settle (Fulfilled (Num 7))]))
  = false.
Proof.
  exact (settled_hook_is_not_loading true
           [Execute; Settle (Rejected boom); Settle (Fulfilled (Num 7))] eq_refl).
Defined.

(** With two or more calls in flight the first settlement already turns
    [loading] off although a call is still pending; the state that
    remains is that of the call that settled last, whichever was issued
    first; and a failure settling after a success leaves the success's
    [data] next to the failure's [error], for a failure that is an error
    object.  A rejection with [null] or [undefined] publishes no message:
    the [error] is whatever it was before. *)
Theorem overlapping_calls_last_settled_wins h :
  (2 <= pending h)%nat ->
  (forall o,
     loading (state (step h (Settle o))) = false /\
     (1 <= pending (step h (Settle o)))%nat) /\
  (forall o X,
     state (run h [Settle o; Settle (Fulfilled X)])
     = UseApi.mkState X false (error (state (step h (Settle o))))) /\
  (forall X (err : Error),
     state (run h [Settle (Fulfilled X); Settle (Rejected err)])
     = UseApi.mkState X false (message_by_priority err)) /\
  (forall X (p : primitive),
     state (run h [Settle (Fulfilled X); Settle (Rejected (Thrown p))])
     = UseApi.mkState X false
         (if nullish p then error (state h) else Str "An error occurred")).
Proof.
  intros Hp. destruct h as [s [|[|n]]]; simpl in Hp; try lia.
  split; [|split; [|split]].
  - intros o. simpl. split; [apply loading_execute_settle|lia].
  - intros o X. simpl. destruct o as [x|[e|[]]]; reflexivity.
  - intros X err. simpl. unfold publish. simpl.
    rewrite <- errorMessage_by_priority. reflexivity.
  - intros X p. destruct p; reflexivity.
Qed.

Lemma overlapping_calls_last_settled_wins_witness :
  state (run (run (mount true) [Execute])
           [Settle (Fulfilled (Num 7)); Settle (Rejected forbidden)])
  = UseApi.mkState (Num 7) false (Str "Admins only").
Proof.
  destruct (overlapping_calls_last_settled_wins (run (mount true) [Execute]))
    as (_ & _ & H & _).
  - simpl. lia.
  - exact (H (Num 7) forbidden).
Defined.

End OverlappingCalls.

(** ** usePaginatedApi: failures, bare sequences, round trips *)

Section PaginatedMore.

Import UsePaginatedApi.

Implicit Types (h : Hook) (e : Event) (o : settled Result).

(** A fetch that rejects, or resolves to [null]/[undefined], keeps the
    rows, the page and both totals of the last good fetch and turns
    [loading] off.  It publishes an [error]: the server's message field
    when the failure is an error object that has a truthy one, the fixed
    text otherwise; except when the operation rejects with [null] or
    [undefined], where the [catch] block throws and [error] is left as
    it was. *)
Theorem failed_fetch_keeps_last_good_page h o :
  (exists err, o = Rejected err) \/ o = Fulfilled Nullish ->
  (0 < pending h)%nat ->
  let s := state h in
  let s' := state (settle o h) in
  data s' = data s /\ page s' = page s /\
  totalPages s' = totalPages s /\ totalItems s' = totalItems s /\
  loading s' = false /\
  error s' =
    match o with
    | Rejected (Failure e) => paginated_message e
    | Rejected (Thrown p) =>
        if nullish p then error s else Str "Failed to fetch data"
    | Fulfilled _ => Str "Failed to fetch data"
    end.
Proof.
  intros Ho Hp. unfold settle.
  destruct (pending h) as [|n]; [lia|]. cbn [state].
  destruct Ho as [[[e|p] ->]| ->].
  - unfold fetch_settle. cbn [try_body]. rewrite failure_message_paginated.
    repeat split.
  - destruct p; repeat split.
  - repeat split.
Qed.

Lemma failed_fetch_keeps_last_good_page_witness :
  let s := state (refetch None on_last_page) in
  let s' := state (settle (Rejected forbidden) (refetch None on_last_page)) in
  data s' = data s /\ page s' = page s /\
  totalPages s' = totalPages s /\ totalItems s' = totalItems s /\
  loading s' = false /\
  error s' = Str "Admins only".
Proof.
  apply (failed_fetch_keeps_last_good_page (refetch None on_last_page)
           (Rejected forbidden)).
  - left. exists forbidden. reflexivity.
  - simpl. lia.
Defined.

(** An operation that resolves to a bare sequence gives the hook no
    totals: both are reset to 0 even when rows came back.  From then on
    every [goToPage] is blocked, and [nextPage] is blocked exactly when
    the page is not negative: on a hook constructed with a negative
    initial page the guard [page < 0] passes and [nextPage] moves. *)
Theorem bare_sequence_blocks_navigation h (l : list value) :
  (0 < pending h)%nat ->
  let h' := settle (Fulfilled (Items l)) h in
  data (state h') = Arr l /\
  totalPages (state h') = 0 /\
  totalItems (state h') = 0 /\
  (forall n, goToPage n h' = h') /\
  (0 <= page (state h) -> nextPage h' = h') /\
  (page (state h) < 0 ->
     page (state (nextPage h')) = page (state h) + 1 /\
     issued h' NextPage = [call_for h' (page (state h) + 1)]).
Proof.
  intros Hp. unfold settle.
  destruct (pending h) as [|n]; [lia|]. cbv zeta.
  set (h' := mkHook _ _ _ _ _).
  assert (Hpage : page (state h') = page (state h)) by reflexivity.
  assert (Htotal : totalPages (state h') = 0) by reflexivity.
  split; [reflexivity|]. split; [reflexivity|]. split; [reflexivity|].
  split; [|split].
  - intros k. unfold goToPage. rewrite Htotal.
    destruct (Z.geb_spec k 1); simpl; [|reflexivity].
    destruct (Z.leb_spec k 0); [lia|reflexivity].
  - intros Hpos. unfold nextPage. rewrite Htotal, Hpage.
    destruct (Z.ltb_spec (page (state h)) 0); [lia|reflexivity].
  - intros Hneg.
    assert (Hn : nextPage h' = setPage (page (state h) + 1) h').
    { unfold nextPage. rewrite Htotal, Hpage.
      destruct (Z.ltb_spec (page (state h)) 0); [reflexivity|lia]. }
    split.
    + rewrite Hn. apply page_setPage.
    + apply issued_of. change (step h' NextPage) with (nextPage h').
      rewrite Hn.
      destruct (setPage_changed (page (state h) + 1) h') as (_ & _ & Hc);
        [rewrite Hpage; lia|exact Hc].
Qed.

Lemma bare_sequence_blocks_navigation_witness :
  let h' := settle (Fulfilled (Items [Str "row"; Str "row"])) (mount listing 1) in
  data (state h') = Arr [Str "row"; Str "row"] /\
  totalPages (state h') = 0 /\
  totalItems (state h') = 0 /\
  (forall n, goToPage n h' = h') /\
  nextPage h' = h' /\
  page (state (nextPage
                 (settle (Fulfilled (Items [])) (mount listing (-5))))) = -4.
Proof.
  destruct (bare_sequence_blocks_navigation (mount listing 1)
              [Str "row"; Str "row"]) as (Hd & Ht & Hi & Hgo & Hnext & _).
  { simpl. lia. }
  destruct (bare_sequence_blocks_navigation (mount listing (-5)) [])
    as (_ & _ & _ & _ & _ & Hneg).
  { simpl. lia. }
  split; [exact Hd|]. split; [exact Ht|]. split; [exact Hi|].
  split; [exact Hgo|]. split; [apply Hnext; discriminate|].
  apply Hneg. reflexivity.
Defined.

(** [nextPage] followed by [prevPage] comes back to the page it started
    from, at the price of two calls: one for the next page and one for
    the page that was already shown. *)
Theorem next_then_prev_returns h :
  1 <= page (state h) < totalPages (state h) ->
  page (state (prevPage (nextPage h))) = page (state h) /\
  calls (prevPage (nextPage h))
  = calls h ++ [call_for h (page (state h) + 1); call_for h (page (state h))].
Proof.
  intros [H1 H2].
  assert (Hn : nextPage h = setPage (page (state h) + 1) h).
  { unfold nextPage.
    destruct (Z.ltb_spec (page (state h)) (totalPages (state h))); [reflexivity|lia]. }
  destruct (setPage_changed (page (state h) + 1) h ltac:(lia)) as (Hp & _ & Hc).
  rewrite <- Hn in Hp, Hc.
  assert (Hprops : props (nextPage h) = props h).
  { rewrite Hn. unfold setPage.
    destruct (Z.eqb (page (state h) + 1) (page (state h))); reflexivity. }
  assert (Hb : prevPage (nextPage h) = setPage (page (state h)) (nextPage h)).
  { unfold prevPage. rewrite Hp.
    destruct (Z.gtb_spec (page (state h) + 1) 1); [|lia].
    f_equal. lia. }
  rewrite Hb. split; [apply page_setPage|].
  destruct (setPage_changed (page (state h)) (nextPage h)) as (_ & _ & Hc2).
  { rewrite Hp. lia. }
  rewrite Hc2, Hc. unfold call_for. rewrite Hprops.
  rewrite <- app_assoc. reflexivity.
Qed.

Lemma next_then_prev_returns_witness :
  page (state (prevPage (nextPage on_first_page))) = 1 /\
  calls (prevPage (nextPage on_first_page))
  = calls on_first_page ++ [mkCall 0 2 10; mkCall 0 1 10].
Proof.
  apply (next_then_prev_returns on_first_page). split; [discriminate|reflexivity].
Defined.

Lemma pending_issue p h : pending (issue p h) = S (pending h).
Proof. reflexivity. Qed.

Lemma step_idle_not_loading h e :
  (pending h = O -> loading (state h) = false) ->
  pending (step h e) = O -> loading (state (step h e)) = false.
Proof.
  intros IH. pose proof (navigation_is_setPage h e) as Hnav.
  assert (Hset : forall p, pending (setPage p h) = O ->
                           loading (state (setPage p h)) = false).
  { intros p. unfold setPage. destruct (Z.eqb p (page (state h))).
    - exact IH.
    - simpl. discriminate. }
  destruct e as [| |n|n|q|o]; simpl in *.
  - rewrite Hnav. apply Hset.
  - rewrite Hnav. apply Hset.
  - rewrite Hnav. apply Hset.
  - discriminate.
  - unfold render. destruct (props_eqb q (props h)); simpl.
    + exact IH.
    + discriminate.
  - unfold settle. destruct (pending h) as [|k] eqn:Hp.
    + rewrite Hp. exact IH.
    + simpl. intros _.
      unfold fetch_settle. destruct (try_body o) as [us [u|err]];
        [|destruct (failure_message err) as [m|e']]; simpl;
        unfold publish; rewrite !fold_left_app; reflexivity.
Qed.

(** From the mount on, whatever the user and the backend do: when no
    call is in flight the paginated hook is not [loading]. *)
Theorem idle_paginated_hook_is_not_loading (q : Props) (initialPage : Z)
    (es : list Event) :
  pending (run (mount q initialPage) es) = O ->
  loading (state (run (mount q initialPage) es)) = false.
Proof.
  assert (H : forall es h,
             (pending h = O -> loading (state h) = false) ->
             pending (run h es) = O -> loading (state (run h es)) = false).
  { clear. induction es as [|e es IH]; intros h Hh; simpl.
    - exact Hh.
    - apply IH. apply step_idle_not_loading. exact Hh. }
  apply H. simpl. discriminate.
Qed.

Lemma idle_paginated_hook_is_not_loading_witness :
  loading (state (run (mount listing 1) (browsing ++ [Settle three_pages])))
  = false.
Proof.
  exact (idle_paginated_hook_is_not_loading listing 1
           (browsing ++ [Settle three_pages]) eq_refl).
Defined.

End PaginatedMore.

(** ** Utilities of the hooks module *)

Section Strings.

Lemma string_length_append (s t : string) :
  String.length (s +:+ t) = (String.length s + String.length t)%nat.
Proof. induction s as [|c s IH]; simpl; [reflexivity|]. rewrite IH. reflexivity. Qed.

Lemma substring0_length (n : nat) : forall s : string,
  (n <= String.length s)%nat -> String.length (String.substring 0 n s) = n.
Proof.
  induction n as [|n IH]; intros [|c s] H; simpl in *; try reflexivity; try lia.
  rewrite IH by lia. reflexivity.
Qed.

Lemma substring0_append (s t : string) :
  String.substring 0 (String.length s) (s +:+ t) = s.
Proof.
  induction s as [|c s IH]; simpl.
  - destruct t; reflexivity.
  - rewrite IH. reflexivity.
Qed.

Lemma append_not_empty (s t : string) : t <> "" -> String.eqb (s +:+ t) "" = false.
Proof.
  intros Ht. destruct s; simpl; [|reflexivity].
  destruct t; [contradiction|reflexivity].
Qed.

End Strings.

Section TruncateText.

Import Utils.

Implicit Types (text : string) (maxLength : Z).

(** [truncateText]: a text of at most [maxLength] characters, and the
    empty text whatever [maxLength] is, are returned as they are; a
    longer one becomes its first
    [maxLength] characters followed by three dots, so the result has
    exactly [max(maxLength, 0) + 3] characters, which is more than the
    input had when the input was only one or two characters too long;
    truncating a second time changes nothing. *)
Theorem truncateText_shape text maxLength :
  (Z.of_nat (String.length text) <= maxLength ->
     truncateText text maxLength = text) /\
  truncateText "" maxLength = "" /\
  (text <> "" -> maxLength < Z.of_nat (String.length text) ->
     truncateText text maxLength
       = String.substring 0 (Z.to_nat maxLength) text +:+ "..." /\
     Z.of_nat (String.length (truncateText text maxLength))
       = Z.max maxLength 0 + 3) /\
  truncateText (truncateText text maxLength) maxLength
    = truncateText text maxLength.
Proof.
  assert (Hlong : text <> "" -> maxLength < Z.of_nat (String.length text) ->
            truncateText text maxLength
            = String.substring 0 (Z.to_nat maxLength) text +:+ "...").
  { intros Hne H. unfold truncateText.
    destruct (String.eqb_spec text "") as [E|_]; simpl.
    - contradiction.
    - destruct (Z.leb_spec (Z.of_nat (String.length text)) maxLength);
        [lia|reflexivity]. }
  assert (Hshort : Z.of_nat (String.length text) <= maxLength ->
            truncateText text maxLength = text).
  { intros H. unfold truncateText.
    destruct (Z.leb_spec (Z.of_nat (String.length text)) maxLength); [|lia].
    rewrite orb_true_r. reflexivity. }
  assert (Hlen : maxLength < Z.of_nat (String.length text) ->
            String.length (String.substring 0 (Z.to_nat maxLength) text)
            = Z.to_nat maxLength).
  { intros H. apply substring0_length. lia. }
  split; [exact Hshort|]. split; [reflexivity|]. split.
  - intros Hne H. split; [exact (Hlong Hne H)|].
    rewrite (Hlong Hne H), string_length_append, (Hlen H). simpl. lia.
  - destruct (String.eqb_spec text "") as [->|Hne]; [reflexivity|].
    destruct (Z.le_gt_cases (Z.of_nat (String.length text)) maxLength) as [H|H].
    + rewrite (Hshort H). exact (Hshort H).
    + rewrite (Hlong Hne H). unfold truncateText at 1.
      rewrite append_not_empty by discriminate. simpl.
      rewrite string_length_append, (Hlen H).
      destruct (Z.leb_spec (Z.of_nat (Z.to_nat maxLength + String.length "..."))
                  maxLength) as [Hle|_].
      { simpl in Hle. lia. }
      rewrite <- (Hlen H) at 1. rewrite substring0_append. reflexivity.
Qed.

Lemma truncateText_shape_witness :
  truncateText "Cement" 50 = "Cement" /\
  (truncateText "Ready-mix concrete" 5 = "Ready..." /\
   Z.of_nat (String.length (truncateText "Ready-mix concrete" 5)) = 8).
Proof.
  destruct (truncateText_shape "Cement" 50) as (Hshort & _).
  destruct (truncateText_shape "Ready-mix concrete" 5) as (_ & _ & Hlong & _).
  split; [apply Hshort; vm_compute; discriminate|].
  apply Hlong; [discriminate|reflexivity].
Defined.

End TruncateText.

Section GetApiUrl.

Import Utils.

(** [getApiUrl] makes the leading slash of an endpoint optional: with or
    without it the result is the base address, one slash, and the rest.
    Only that one slash is looked at: an endpoint that starts with two
    slashes keeps both. *)
Theorem getApiUrl_leading_slash (endpoint : string) :
  getApiUrl ("/" +:+ endpoint) = API_BASE_URL +:+ "/" +:+ endpoint /\
  (String.prefix "/" endpoint = false ->
     getApiUrl endpoint = getApiUrl ("/" +:+ endpoint)) /\
  (String.prefix "/" endpoint = true ->
     getApiUrl endpoint = API_BASE_URL +:+ endpoint /\
     getApiUrl ("/" +:+ endpoint) <> getApiUrl endpoint).
Proof.
  split; [|split].
  - unfold getApiUrl. simpl. destruct endpoint; reflexivity.
  - intros H. unfold getApiUrl. rewrite H. simpl.
    destruct endpoint; reflexivity.
  - intros H. unfold getApiUrl. rewrite H. split; [reflexivity|].
    simpl. destruct endpoint as [|c e]; [discriminate|].
    intros Heq. apply (f_equal String.length) in Heq. simpl in Heq. lia.
Qed.

Lemma getApiUrl_leading_slash_witness :
  getApiUrl "api/vendors/rank" = getApiUrl "/api/vendors/rank" /\
  getApiUrl "//api" = API_BASE_URL +:+ "//api".
Proof.
  destruct (getApiUrl_leading_slash "api/vendors/rank") as (_ & Hno & _).
  destruct (getApiUrl_leading_slash "//api") as (_ & _ & Hyes).
  split; [exact (Hno eq_refl) | exact (proj1 (Hyes eq_refl))].
Defined.

End GetApiUrl.

Section IsEmpty.

Import Utils.

Lemma nodup_nil_inv {A} (dec : forall x y : A, {x = y} + {x <> y}) (l : list A) :
  nodup dec l = [] -> l = [].
Proof.
  destruct l as [|x l]; [reflexivity|]. intros H.
  assert (Hin : In x (nodup dec (x :: l))) by (apply nodup_In; left; reflexivity).
  rewrite H in Hin. destruct Hin.
Qed.

Lemma indices_length n : length (indices n) = n.
Proof. unfold indices. rewrite length_map. apply length_seq. Qed.

(** [isEmpty] is [true] for [null], [undefined], the empty string, the
    object without keys and the array without elements, and [false] for
    a non-empty string, array or object; but also [true] for every
    number and every boolean, [5] and [true] included. *)
Theorem isEmpty_cases (obj : value) :
  isEmpty obj =
    match obj with
    | Undefined | Null | Num _ | Bool _ => true
    | Str s => String.eqb s ""
    | Arr items => match items with [] => true | _ => false end
    | Obj fields => match fields with [] => true | _ => false end
    end.
Proof.
  unfold isEmpty. destruct obj as [| |b|n|s|items|fields]; simpl; try reflexivity.
  - destruct b; reflexivity.
  - apply orb_true_r.
  - rewrite indices_length. destruct s; reflexivity.
  - rewrite indices_length. destruct items; reflexivity.
  - destruct fields as [|f fields]; [reflexivity|].
    destruct (nodup string_dec (map fst (f :: fields))) eqn:Hn; [|reflexivity].
    apply nodup_nil_inv in Hn. discriminate.
Qed.

End IsEmpty.

(** ** The matcher is correct for the language of an expression *)

Section RegexFacts.

Import Regex.

Implicit Types (r : re) (s u v : list ascii) (c : ascii).

Lemma lang_never_inv s : ~ lang Never s.
Proof. intros H. inversion H. Qed.

Lemma lang_eps_inv s : lang Eps s <-> s = [].
Proof.
  split.
  - intros H. inversion H. reflexivity.
  - intros ->. constructor.
Qed.

Lemma lang_class_inv p s : lang (Class p) s <-> exists c, s = [c] /\ p c = true.
Proof.
  split.
  - intros H. inversion H; subst. eauto.
  - intros (c & -> & H). constructor. exact H.
Qed.

Lemma lang_cat_inv r1 r2 s :
  lang (Cat r1 r2) s <-> exists u v, s = u ++ v /\ lang r1 u /\ lang r2 v.
Proof.
  split.
  - intros H. inversion H; subst. eauto.
  - intros (u & v & -> & Hu & Hv). constructor; assumption.
Qed.

Lemma lang_alt_inv r1 r2 s : lang (Alt r1 r2) s <-> lang r1 s \/ lang r2 s.
Proof.
  split.
  - intros H. inversion H; subst; auto.
  - intros [H|H]; [apply lang_alt_l|apply lang_alt_r]; exact H.
Qed.

Lemma nullable_lang r : nullable r = true <-> lang r [].
Proof.
  induction r as [| |p|r1 IH1 r2 IH2|r1 IH1 r2 IH2|r IH]; simpl.
  - split; [discriminate|]. intros H. destruct (lang_never_inv _ H).
  - split; [constructor|reflexivity].
  - split; [discriminate|]. intros H.
    apply lang_class_inv in H as (c & Hc & _). discriminate.
  - rewrite andb_true_iff, IH1, IH2, lang_cat_inv. split.
    + intros [H1 H2]. exists [], []. auto.
    + intros (u & v & Heq & Hu & Hv). symmetry in Heq.
      apply app_eq_nil in Heq as [-> ->]. auto.
  - rewrite orb_true_iff, IH1, IH2, lang_alt_inv. reflexivity.
  - split; [constructor|reflexivity].
Qed.

Lemma star_cons_inv r c s :
  lang (Star r) (c :: s) ->
  exists u v, s = u ++ v /\ lang r (c :: u) /\ lang (Star r) v.
Proof.
  intros H. remember (Star r) as R eqn:HR. remember (c :: s) as l eqn:Hl.
  revert s Hl.
  induction H as [| | | | | |r' u v Hu _ Hv IHv]; intros w Hl; try discriminate.
  injection HR as ->. destruct u as [|c' u'].
  - simpl in Hl. apply IHv; [reflexivity|exact Hl].
  - simpl in Hl. injection Hl as -> <-. exists u', v. auto.
Qed.

Lemma deriv_lang r : forall c s, lang (deriv c r) s <-> lang r (c :: s).
Proof.
  induction r as [| |p|r1 IH1 r2 IH2|r1 IH1 r2 IH2|r IH]; intros c s; simpl.
  - split; intros H; destruct (lang_never_inv _ H).
  - split; intros H.
    + destruct (lang_never_inv _ H).
    + apply lang_eps_inv in H. discriminate.
  - rewrite lang_class_inv. destruct (p c) eqn:Hp.
    + rewrite lang_eps_inv. split.
      * intros ->. eauto.
      * intros (c' & Heq & _). injection Heq as _ ->. reflexivity.
    + split.
      * intros H. destruct (lang_never_inv _ H).
      * intros (c' & Heq & Hc'). injection Heq as -> _. congruence.
  - assert (Hcat : lang (Cat (deriv c r1) r2) s <->
                   exists u v, s = u ++ v /\ lang r1 (c :: u) /\ lang r2 v).
    { rewrite lang_cat_inv. split; intros (u & v & Heq & Hu & Hv);
        exists u, v; (split; [exact Heq|split; [apply IH1; exact Hu|exact Hv]]). }
    assert (Hsplit : lang (Cat r1 r2) (c :: s) <->
              (lang r1 [] /\ lang r2 (c :: s)) \/
              exists u v, s = u ++ v /\ lang r1 (c :: u) /\ lang r2 v).
    { rewrite lang_cat_inv. split.
      - intros (u & v & Heq & Hu & Hv). destruct u as [|c' u']; simpl in Heq.
        + subst v. left. auto.
        + injection Heq as <- ->. right. eauto.
      - intros [[H1 H2]|(u & v & -> & Hu & Hv)].
        + exists [], (c :: s). auto.
        + exists (c :: u), v. auto. }
    rewrite Hsplit. destruct (nullable r1) eqn:Hn.
    + rewrite lang_alt_inv, Hcat, IH2. split.
      * intros [H|H]; [right; exact H|left; split; [|exact H]].
        apply nullable_lang. exact Hn.
      * intros [[_ H]|H]; [right; exact H|left; exact H].
    + rewrite Hcat. split.
      * intros H. right. exact H.
      * intros [[H _]|H]; [|exact H].
        apply nullable_lang in H. congruence.
  - rewrite !lang_alt_inv, IH1, IH2. reflexivity.
  - rewrite lang_cat_inv. split.
    + intros (u & v & -> & Hu & Hv). change (c :: u ++ v) with ((c :: u) ++ v).
      constructor; [apply IH; exact Hu|exact Hv].
    + intros H. apply star_cons_inv in H as (u & v & -> & Hu & Hv).
      exists u, v. split; [reflexivity|]. split; [apply IH; exact Hu|exact Hv].
Qed.

Lemma matches_lang s : forall r, matches r s = true <-> lang r s.
Proof.
  induction s as [|c s IH]; intros r; simpl.
  - apply nullable_lang.
  - rewrite IH. apply deriv_lang.
Qed.

Lemma lang_star_class p u :
  lang (Star (Class p)) u <-> Forall (fun c => p c = true) u.
Proof.
  split.
  - intros H. remember (Star (Class p)) as R eqn:HR.
    induction H as [| | | | | |r' a b Ha _ Hb IHb]; try discriminate.
    + constructor.
    + injection HR as ->. apply lang_class_inv in Ha as (c & -> & Hc). simpl.
      constructor; [exact Hc|apply IHb; reflexivity].
  - induction 1 as [|c u Hc _ IH].
    + constructor.
    + change (c :: u) with ([c] ++ u).
      constructor; [constructor; exact Hc|exact IH].
Qed.

Lemma lang_plus_class p u :
  lang (Plus (Class p)) u <-> u <> [] /\ Forall (fun c => p c = true) u.
Proof.
  unfold Plus. rewrite lang_cat_inv. split.
  - intros (a & b & -> & Ha & Hb). apply lang_class_inv in Ha as (c & -> & Hc).
    simpl. split; [discriminate|].
    constructor; [exact Hc|apply lang_star_class; exact Hb].
  - intros [Hne H]. destruct u as [|c u]; [contradiction|].
    inversion H; subst. exists [c], u.
    split; [reflexivity|].
    split; [constructor; assumption|apply lang_star_class; assumption].
Qed.

Lemma lang_repeat_class p n : forall u,
  lang (Repeat n (Class p)) u <-> length u = n /\ Forall (fun c => p c = true) u.
Proof.
  induction n as [|n IH]; intros u; simpl.
  - rewrite lang_eps_inv. split.
    + intros ->. split; [reflexivity|constructor].
    + intros [Hl _]. destruct u; [reflexivity|discriminate].
  - rewrite lang_cat_inv. split.
    + intros (a & b & -> & Ha & Hb). apply lang_class_inv in Ha as (c & -> & Hc).
      apply IH in Hb as [Hl Hf]. simpl.
      split; [congruence|constructor; assumption].
    + intros [Hl H]. destruct u as [|c u]; [discriminate|].
      inversion H; subst. injection Hl as Hl. exists [c], u.
      split; [reflexivity|].
      split; [constructor; assumption|apply IH; split; assumption].
Qed.

End RegexFacts.

(** ** The validators *)

Section ValidatorFacts.

Import Regex Validators.

Implicit Types (u : list ascii) (c : ascii).

Lemma exactly_eq a c : exactly a c = true <-> c = a.
Proof. unfold exactly. rewrite Ascii.eqb_eq. split; congruence. Qed.

Lemma not_space_or_at_inv c :
  not_space_or_at c = true -> space c = false /\ c <> "@"%char.
Proof.
  unfold not_space_or_at. rewrite negb_true_iff, orb_false_iff.
  intros [Hs Ha]. split; [exact Hs|].
  intros ->. discriminate Ha.
Qed.

Lemma plain_no_at u :
  Forall (fun c => not_space_or_at c = true) u ->
  count_occ ascii_dec u "@"%char = 0%nat.
Proof.
  induction 1 as [|c u Hc _ IH]; [reflexivity|].
  apply not_space_or_at_inv in Hc as [_ Hc].
  rewrite count_occ_cons_neq by exact Hc. exact IH.
Qed.

Lemma plain_no_space u :
  Forall (fun c => not_space_or_at c = true) u ->
  Forall (fun c => space c = false) u.
Proof.
  induction 1 as [|c u Hc _ IH]; constructor; [|exact IH].
  apply (not_space_or_at_inv c Hc).
Qed.

Lemma list_ascii_length (s : string) :
  length (list_ascii_of_string s) = String.length s.
Proof. induction s as [|c s IH]; simpl; [reflexivity|]. rewrite IH. reflexivity. Qed.

(** [isValidEmail] accepts exactly the strings made of a local part, an
    [@], and a domain with a dot somewhere inside it, where the local
    part and the pieces of the domain on either side of that dot are
    non-empty and free of whitespace and [@].  So an accepted string has
    exactly one [@], no whitespace and at least five characters; nothing
    else is checked (a domain may begin or end its pieces with dots). *)
Theorem isValidEmail_shape (email : string) :
  (isValidEmail email = true <->
   exists l d t,
     list_ascii_of_string email = l ++ "@"%char :: d ++ "."%char :: t /\
     l <> [] /\ d <> [] /\ t <> [] /\
     Forall (fun c => not_space_or_at c = true) (l ++ d ++ t)) /\
  (isValidEmail email = true ->
   count_occ ascii_dec (list_ascii_of_string email) "@"%char = 1%nat /\
   Forall (fun c => space c = false) (list_ascii_of_string email) /\
   (5 <= String.length email)%nat).
Proof.
  assert (Hiff : isValidEmail email = true <->
    exists l d t,
     list_ascii_of_string email = l ++ "@"%char :: d ++ "."%char :: t /\
     l <> [] /\ d <> [] /\ t <> [] /\
     Forall (fun c => not_space_or_at c = true) (l ++ d ++ t)).
  { unfold isValidEmail, test, emailRegex. rewrite matches_lang. split.
    - intros H.
      apply lang_cat_inv in H as (l & r1 & Heq & Hl & H).
      apply lang_cat_inv in H as (a & r2 & -> & Ha & H).
      apply lang_cat_inv in H as (d & r3 & -> & Hd & H).
      apply lang_cat_inv in H as (b & t & -> & Hb & Ht).
      apply lang_class_inv in Ha as (ca & -> & Hca). apply exactly_eq in Hca as ->.
      apply lang_class_inv in Hb as (cb & -> & Hcb). apply exactly_eq in Hcb as ->.
      apply lang_plus_class in Hl as [Hl1 Hl2].
      apply lang_plus_class in Hd as [Hd1 Hd2].
      apply lang_plus_class in Ht as [Ht1 Ht2].
      exists l, d, t. split; [exact Heq|].
      repeat (split; [assumption|]).
      rewrite !Forall_app. auto.
    - intros (l & d & t & Heq & Hl & Hd & Ht & Hf).
      rewrite !Forall_app in Hf. destruct Hf as (Hfl & Hfd & Hft).
      rewrite Heq.
      constructor; [apply lang_plus_class; auto|].
      change ("@"%char :: d ++ "."%char :: t)
        with (["@"%char] ++ d ++ ["."%char] ++ t).
      constructor; [constructor; apply exactly_eq; reflexivity|].
      constructor; [apply lang_plus_class; auto|].
      constructor; [constructor; apply exactly_eq; reflexivity|].
      apply lang_plus_class; auto. }
  split; [exact Hiff|].
  intros H. apply Hiff in H as (l & d & t & Heq & Hl & Hd & Ht & Hf).
  rewrite !Forall_app in Hf. destruct Hf as (Hfl & Hfd & Hft).
  rewrite <- list_ascii_length, Heq. split; [|split].
  - rewrite count_occ_app, count_occ_cons_eq by reflexivity.
    rewrite count_occ_app, count_occ_cons_neq by discriminate.
    rewrite !plain_no_at by assumption. reflexivity.
  - rewrite Forall_app. split; [apply plain_no_space; exact Hfl|].
    constructor; [reflexivity|].
    rewrite Forall_app. split; [apply plain_no_space; exact Hfd|].
    constructor; [reflexivity|apply plain_no_space; exact Hft].
  - rewrite length_app. simpl. rewrite length_app. simpl.
    destruct l; [contradiction|]. destruct d; [contradiction|].
    destruct t; [contradiction|]. simpl. lia.
Qed.

Lemma isValidEmail_shape_witness :
  count_occ ascii_dec (list_ascii_of_string "buyer@tatva.in") "@"%char = 1%nat /\
  Forall (fun c => space c = false) (list_ascii_of_string "buyer@tatva.in") /\
  (5 <= String.length "buyer@tatva.in")%nat.
Proof.
  destruct (isValidEmail_shape "buyer@tatva.in") as [_ H].
  exact (H eq_refl).
Defined.

(** [isValidPhone] accepts exactly the strings of ten characters whose
    first is one of 6, 7, 8, 9 and whose other nine are decimal digits:
    no spaces, no country code, no separators. *)
Theorem isValidPhone_shape (phone : string) :
  isValidPhone phone = true <->
  String.length phone = 10%nat /\
  exists c rest,
    list_ascii_of_string phone = c :: rest /\
    in_range "6" "9" c = true /\
    Forall (fun d => digit d = true) rest.
Proof.
  unfold isValidPhone, test, phoneRegex. rewrite matches_lang.
  rewrite lang_cat_inv, <- list_ascii_length. split.
  - intros (a & rest & Heq & Ha & Hrest).
    apply lang_class_inv in Ha as (c & -> & Hc).
    apply lang_repeat_class in Hrest as [Hlen Hf].
    rewrite Heq. simpl. split; [congruence|]. exists c, rest. auto.
  - intros (Hlen & c & rest & Heq & Hc & Hf).
    exists [c], rest. split; [exact Heq|].
    split; [constructor; exact Hc|].
    apply lang_repeat_class. split; [|exact Hf].
    rewrite Heq in Hlen. simpl in Hlen. congruence.
Qed.

End ValidatorFacts.

(** ** sortBy *)

Section SortFacts.

Import SortBy.

Context {A : Type}.
Variable compare : A -> A -> Z.

Implicit Types (x y : A) (l : list A).

Lemma insert_perm x l : Permutation (insert compare x l) (x :: l).
Proof.
  induction l as [|y l IH]; simpl; [reflexivity|].
  destruct (Z.leb (compare x y) 0); [reflexivity|].
  rewrite IH. apply perm_swap.
Qed.

Lemma sort_perm l : Permutation (sort compare l) l.
Proof.
  induction l as [|x l IH]; simpl; [reflexivity|].
  rewrite insert_perm. constructor. exact IH.
Qed.

Lemma Forall_insert (Q : A -> Prop) x l :
  Forall Q (insert compare x l) <-> Q x /\ Forall Q l.
Proof.
  induction l as [|y l IH]; simpl.
  - split; [intros H; inversion H; auto|intros [H _]; auto].
  - destruct (Z.leb (compare x y) 0).
    + split; [intros H; inversion H; auto|intros [H1 H2]; auto].
    + split.
      * intros H. inversion H as [|? ? Hy Hrest]; subst.
        apply IH in Hrest as [Hx Hl]. auto.
      * intros [Hx H]. inversion H; subst. constructor; [assumption|].
        apply IH. auto.
Qed.

Lemma Forall_sort (Q : A -> Prop) l : Forall Q (sort compare l) <-> Forall Q l.
Proof.
  induction l as [|x l IH]; simpl; [reflexivity|].
  rewrite Forall_insert, IH. split.
  - intros [H1 H2]. auto.
  - intros H. inversion H; auto.
Qed.

Section Ordered.

(** The elements concerned ([P]) are ordered by [le], and [compare]
    agrees with it. *)
Variable P : A -> Prop.
Variable le : A -> A -> Prop.
Hypothesis compare_le : forall x y, P x -> P y -> (compare x y <= 0 <-> le x y).
Hypothesis le_total : forall x y, P x -> P y -> le x y \/ le y x.
Hypothesis le_trans : forall x y z, le x y -> le y z -> le x z.

Lemma insert_sorted x l :
  P x -> Forall P l -> StronglySorted le l ->
  StronglySorted le (insert compare x l).
Proof.
  intros Hx HP Hs. induction Hs as [|y l Hs IH Hy]; simpl.
  - constructor; constructor.
  - inversion HP as [|? ? Py Pl]; subst.
    destruct (Z.leb_spec (compare x y) 0) as [Hc|Hc].
    + apply compare_le in Hc; [|assumption..].
      constructor; [constructor; assumption|].
      constructor; [exact Hc|].
      eapply Forall_impl; [exact Hy|]. intros z Hz. simpl in Hz.
      eapply le_trans; eassumption.
    + constructor; [apply IH; assumption|].
      apply Forall_insert. split; [|exact Hy].
      destruct (le_total x y Hx Py) as [H|H]; [|exact H].
      apply compare_le in H; [lia|assumption..].
Qed.

Lemma sort_sorted l : Forall P l -> StronglySorted le (sort compare l).
Proof.
  induction 1 as [|x l Hx Hl IH]; simpl; [constructor|].
  apply insert_sorted; [exact Hx| |exact IH].
  apply Forall_sort. exact Hl.
Qed.

End Ordered.

(** Stability: within a class [f] whose members never compare above one
    another, the order of the input is kept. *)
Lemma filter_insert (f : A -> bool) x l :
  (forall y, In y l -> f x = true -> f y = true -> compare x y <= 0) ->
  List.filter f (insert compare x l)
  = if f x then x :: List.filter f l else List.filter f l.
Proof.
  induction l as [|y l IH]; intros H; simpl.
  - reflexivity.
  - destruct (Z.leb_spec (compare x y) 0) as [Hc|Hc]; simpl.
    + reflexivity.
    + rewrite IH by (intros z Hz; apply H; right; exact Hz).
      destruct (f x) eqn:Hfx, (f y) eqn:Hfy; try reflexivity.
      specialize (H y (or_introl eq_refl) eq_refl Hfy). lia.
Qed.

Lemma filter_sort (f : A -> bool) l :
  (forall x y, In x l -> In y l -> f x = true -> f y = true -> compare x y <= 0) ->
  List.filter f (sort compare l) = List.filter f l.
Proof.
  induction l as [|x l IH]; intros H; simpl; [reflexivity|].
  rewrite filter_insert.
  - rewrite IH; [reflexivity|].
    intros a b Ha Hb. apply H; right; assumption.
  - intros y Hy. apply H; [left; reflexivity|right].
    apply (Permutation_in _ (sort_perm l)). exact Hy.
Qed.

End SortFacts.

Section SortByFacts.

Import SortBy.

Variable coerced_lt : value -> value -> bool.

Implicit Types (a b : item) (array : list item) (key order : string).

Lemma comparator_numeric key order a b :
  numeric key a -> numeric key b ->
  comparator coerced_lt key order a b
  = if Z.ltb (key_of key a) (key_of key b)
    then (if String.eqb order "asc" then -1 else 1)
    else if Z.ltb (key_of key b) (key_of key a)
         then (if String.eqb order "asc" then 1 else -1)
         else 0.
Proof.
  intros [x Hx] [y Hy]. unfold comparator, key_of, lt. rewrite Hx, Hy.
  reflexivity.
Qed.

(** On an array of objects whose [key] is a number, [sortBy] returns a
    rearrangement of the array that is ordered by [key], ascending when
    [order] is ['asc'] and descending for every other value of [order],
    and in which items with equal keys keep the order they had in the
    input (so the descending result is not the ascending one
    reversed). *)
Theorem sortBy_is_a_stable_sort array key order :
  Forall (numeric key) array ->
  let sorted := sortBy coerced_lt array key order in
  Permutation sorted array /\
  (order = "asc" ->
     StronglySorted (fun a b => key_of key a <= key_of key b) sorted) /\
  (order <> "asc" ->
     StronglySorted (fun a b => key_of key a >= key_of key b) sorted) /\
  (forall n,
     List.filter (fun a => Z.eqb (key_of key a) n) sorted
     = List.filter (fun a => Z.eqb (key_of key a) n) array).
Proof.
  intros Hnum. unfold sortBy. split; [apply sort_perm|]. split; [|split].
  - intros ->. apply (sort_sorted _ (numeric key)); [| | |exact Hnum].
    + intros a b Ha Hb. rewrite (comparator_numeric key "asc" a b Ha Hb). simpl.
      destruct (Z.ltb_spec (key_of key a) (key_of key b));
        [|destruct (Z.ltb_spec (key_of key b) (key_of key a))]; lia.
    + intros a b _ _. lia.
    + intros a b c. lia.
  - intros Hne. apply (sort_sorted _ (numeric key)); [| | |exact Hnum].
    + intros a b Ha Hb. rewrite (comparator_numeric key order a b Ha Hb).
      destruct (String.eqb_spec order "asc") as [E|_]; [contradiction|].
      destruct (Z.ltb_spec (key_of key a) (key_of key b));
        [|destruct (Z.ltb_spec (key_of key b) (key_of key a))]; lia.
    + intros a b _ _. lia.
    + intros a b c. lia.
  - intros n. apply filter_sort. intros a b Ha Hb Hfa Hfb.
    rewrite List.Forall_forall in Hnum.
    rewrite (comparator_numeric key order a b (Hnum a Ha) (Hnum b Hb)).
    apply Z.eqb_eq in Hfa, Hfb.
    destruct (Z.ltb_spec (key_of key a) (key_of key b));
      [|destruct (Z.ltb_spec (key_of key b) (key_of key a))]; lia.
Qed.

End SortByFacts.

(** ** groupBy *)

Section GroupByFacts.

Import GroupBy.

Variable ToString : value -> string.
Variable inherited : string -> bool.

Notation item := SortBy.item.
Notation key_text key a := (ToString (field key a)).

Implicit Types (array : list item) (key k : string)
  (groups : gmap string (list item)).

Lemma members_app key k (l1 l2 : list item) :
  members ToString key k (l1 ++ l2)
  = members ToString key k l1 ++ members ToString key k l2.
Proof. unfold members. apply List.filter_app. Qed.

Lemma group_of_snoc key k (l : list item) (a : item) :
  group_of ToString key k (l ++ [a])
  = if String.eqb (key_text key a) k
    then Some (members ToString key k l ++ [a])
    else group_of ToString key k l.
Proof.
  unfold group_of. rewrite members_app. unfold members at 2. simpl.
  destruct (String.eqb (key_text key a) k).
  - destruct (members ToString key k l); reflexivity.
  - rewrite app_nil_r. reflexivity.
Qed.

Lemma group_of_Some key k (l g : list item) :
  group_of ToString key k l = Some g -> g = members ToString key k l.
Proof.
  unfold group_of. destruct (members ToString key k l); [discriminate|].
  intros [= <-]. reflexivity.
Qed.

(** The reduction, started from the groups of the items already seen. *)
Lemma fold_reducer key (rest : list item) : forall (seen : list item) groups,
  (forall k, groups !! k = group_of ToString key k seen) ->
  Forall (fun a => inherited (key_text key a) = false) rest ->
  exists groups',
    fold_left (reducer ToString inherited key) rest (Fulfilled groups)
      = Fulfilled groups' /\
    forall k, groups' !! k = group_of ToString key k (seen ++ rest).
Proof.
  induction rest as [|a rest IH]; intros seen groups Hg Hok; cbn [fold_left].
  - exists groups. split; [reflexivity|]. rewrite app_nil_r. exact Hg.
  - inversion Hok as [|? ? Ha Hrest]; subst.
    assert (Hstep : exists groups1,
              reducer ToString inherited key (Fulfilled groups) a
                = Fulfilled groups1 /\
              forall k, groups1 !! k = group_of ToString key k (seen ++ [a])).
    { unfold reducer. destruct (groups !! key_text key a) as [g|] eqn:Hlook.
      - eexists. split; [reflexivity|]. intros k.
        rewrite group_of_snoc. rewrite lookup_insert.
        destruct (String.eqb_spec (key_text key a) k) as [E|E].
        + rewrite decide_True by exact E. subst k.
          rewrite Hg in Hlook. apply group_of_Some in Hlook. rewrite Hlook.
          reflexivity.
        + rewrite decide_False by exact E. apply Hg.
      - rewrite Ha. eexists. split; [reflexivity|]. intros k.
        rewrite group_of_snoc. rewrite lookup_insert.
        destruct (String.eqb_spec (key_text key a) k) as [E|E].
        + rewrite decide_True by exact E. subst k.
          rewrite Hg in Hlook. unfold group_of in Hlook.
          destruct (members ToString key (key_text key a) seen);
            [reflexivity|discriminate].
        + rewrite decide_False by exact E. apply Hg. }
    destruct Hstep as (groups1 & -> & Hg1).
    destruct (IH (seen ++ [a]) groups1 Hg1 Hrest) as (groups' & Hrun & Hg').
    exists groups'. split; [exact Hrun|].
    intros k. rewrite Hg'. rewrite <- app_assoc. reflexivity.
Qed.

Lemma fold_reducer_rejected key (rest : list item) e :
  fold_left (reducer ToString inherited key) rest (Rejected e) = Rejected e.
Proof. induction rest as [|a rest IH]; simpl; [reflexivity|exact IH]. Qed.

(** When no item's key names a property that the empty object
    inherits, [groupBy] returns an object that has, for each key text
    occurring in the array, exactly the items with that key, in the order
    of the array, and no other property (so no group is empty and the
    groups partition the array). *)
Theorem groupBy_partitions array key :
  Forall (fun a => inherited (key_text key a) = false) array ->
  exists groups,
    groupBy ToString inherited array key = Fulfilled groups /\
    forall k, groups !! k = group_of ToString key k array.
Proof.
  intros Hok. unfold groupBy.
  destruct (fold_reducer key array [] ∅) as (groups & Hrun & Hg).
  - intros k. rewrite lookup_empty. reflexivity.
  - exact Hok.
  - exists groups. split; [exact Hrun|exact Hg].
Qed.

(** When the first item whose key names an inherited property (for
    instance ['constructor']) is reached, [groupBy] throws: the inherited
    value is truthy and has no [push]. *)
Theorem groupBy_throws_on_inherited_key (before after : list item) (a : item) key :
  Forall (fun b => inherited (key_text key b) = false) before ->
  inherited (key_text key a) = true ->
  groupBy ToString inherited (before ++ a :: after) key = Rejected not_a_function.
Proof.
  intros Hok Ha. unfold groupBy. rewrite fold_left_app.
  destruct (fold_reducer key before [] ∅) as (groups & -> & Hg).
  - intros k. rewrite lookup_empty. reflexivity.
  - exact Hok.
  - cbn [fold_left]. unfold reducer at 2.
    assert (Hnone : groups !! key_text key a = None).
    { rewrite Hg. simpl. unfold group_of.
      destruct (members ToString key (key_text key a) before) as [|b g] eqn:Hm;
        [reflexivity|].
      assert (Hin : In b (members ToString key (key_text key a) before))
        by (rewrite Hm; left; reflexivity).
      unfold members in Hin. apply List.filter_In in Hin as [Hin Heq].
      apply String.eqb_eq in Heq.
      rewrite List.Forall_forall in Hok. specialize (Hok b Hin).
      congruence. }
    rewrite Hnone, Ha. apply fold_reducer_rejected.
Qed.

End GroupByFacts.

(** ** VendorSelect *)

Section VendorSelectFacts.

Import VendorSelect.

Implicit Types (items : list Item) (clicks : list (string * value))
  (sel : gmap string value).

Lemma size_list_to_set_le (l : list string) :
  (size (list_to_set l : gset string) <= length l)%nat /\
  (size (list_to_set l : gset string) = length l -> NoDup l).
Proof.
  induction l as [|x l [IHle IHeq]].
  - rewrite list_to_set_nil, size_empty. split; [simpl; lia|intros _; constructor].
  - rewrite list_to_set_cons. cbn [length].
    destruct (decide (x ∈ l)) as [Hin|Hnin].
    + assert (Hsame : ({[x]} ∪ list_to_set l : gset string) = list_to_set l).
      { apply set_eq. intros y. rewrite elem_of_union, elem_of_singleton,
          elem_of_list_to_set. split; [intros [->|H]; assumption|auto]. }
      rewrite Hsame. split; lia.
    + rewrite size_union by (rewrite disjoint_singleton_l, elem_of_list_to_set;
                              exact Hnin).
      rewrite size_singleton. split; [lia|].
      intros H. constructor; [exact Hnin|apply IHeq; lia].
Qed.

Lemma dom_after_clicks items clicks : forall sel,
  dom sel ⊆ (list_to_set (map id items) : gset string) ->
  Forall (click_on_rendered items) clicks ->
  dom (fold_left (fun s click => handleSelect (fst click) (snd click) s) clicks sel)
    ⊆ (list_to_set (map id items) : gset string).
Proof.
  induction clicks as [|[i v] clicks IH]; intros sel Hsel Hclicks; simpl.
  - exact Hsel.
  - inversion Hclicks as [|? ? Hc Hrest]; subst. apply IH; [|exact Hrest].
    unfold handleSelect. rewrite dom_insert_L.
    unfold click_on_rendered in Hc. simpl in Hc.
    apply union_subseteq. split; [|exact Hsel].
    apply singleton_subseteq_l. apply elem_of_list_to_set.
    apply list_elem_of_In. exact Hc.
Qed.

(** After any sequence of clicks on rendered vendor cards: if the items
    have pairwise distinct ids, the button is enabled exactly when every
    item has a selected vendor; if two items share an id, the button is
    never enabled. *)
Theorem proceed_enabled_when_all_selected items clicks :
  Forall (click_on_rendered items) clicks ->
  let sel := after_clicks clicks in
  (NoDup (map id items) ->
     (proceed_disabled sel items = false <->
      forall item, In item items -> is_Some (sel !! id item))) /\
  (~ NoDup (map id items) -> proceed_disabled sel items = true).
Proof.
  intros Hclicks sel.
  assert (Hdom : dom sel ⊆ (list_to_set (map id items) : gset string)).
  { apply dom_after_clicks; [|exact Hclicks].
    rewrite dom_empty_L. apply empty_subseteq. }
  assert (Hsize : size sel = size (dom sel)) by (symmetry; apply size_dom).
  assert (Hlen : length (map id items) = length items) by apply length_map.
  destruct (size_list_to_set_le (map id items)) as [Hle Heq].
  pose proof (subseteq_size _ _ Hdom) as Hsub.
  unfold proceed_disabled. rewrite negb_false_iff, negb_true_iff.
  rewrite Nat.eqb_eq, Nat.eqb_neq. split.
  - intros Hnd. rewrite (size_list_to_set _ Hnd) in Hsub. split.
    + intros Hfull item Hitem.
      assert (Hset : dom sel = list_to_set (map id items)).
      { apply set_subseteq_size_eq; [exact Hdom|].
        rewrite (size_list_to_set _ Hnd). lia. }
      apply elem_of_dom. rewrite Hset. apply elem_of_list_to_set.
      apply list_elem_of_In. apply in_map. exact Hitem.
    + intros Hall.
      assert (Hsup : (list_to_set (map id items) : gset string) ⊆ dom sel).
      { intros i Hi. apply elem_of_list_to_set, list_elem_of_In in Hi.
        apply in_map_iff in Hi as (item & <- & Hitem).
        apply elem_of_dom. apply Hall. exact Hitem. }
      pose proof (subseteq_size _ _ Hsup) as Hsup'.
      rewrite (size_list_to_set _ Hnd) in Hsup'. lia.
  - intros Hdup Hfull. apply Hdup. apply Heq. lia.
Qed.


Theorem fetchVendors_failure_keeps_table (json : settled value) (table : value) :
  (exists e, json = Rejected e) \/ json = Fulfilled Null
    \/ json = Fulfilled Undefined ->
  fst (fetchVendors json table) = table /\
  snd (fetchVendors json table) <> None.
Proof.
  intros [[e ->]|[->| ->]]; simpl; split; (reflexivity || discriminate).
Qed.

End VendorSelectFacts.

(** ** Instances of the statements above *)

Section MoreWitnesses.

Lemma sortBy_is_a_stable_sort_witness :
  let sorted := SortBy.sortBy no_coercion quotes "price" "desc" in
  Permutation sorted quotes /\
  StronglySorted
    (fun a b => SortBy.key_of "price" a >= SortBy.key_of "price" b) sorted /\
  List.filter (fun a => Z.eqb (SortBy.key_of "price" a) 2) sorted
  = List.filter (fun a => Z.eqb (SortBy.key_of "price" a) 2) quotes.
Proof.
  assert (Hnum : Forall (SortBy.numeric "price") quotes).
  { repeat constructor; eexists; reflexivity. }
  destruct (sortBy_is_a_stable_sort no_coercion quotes "price" "desc" Hnum)
    as (Hperm & _ & Hdesc & Hstable).
  split; [exact Hperm|]. split; [apply Hdesc; discriminate|apply Hstable].
Defined.

Lemma groupBy_partitions_witness :
  exists groups,
    GroupBy.groupBy scalar_ToString object_prototype_names orders "status"
      = Fulfilled groups /\
    forall k, groups !! k = GroupBy.group_of scalar_ToString "status" k orders.
Proof.
  apply (groupBy_partitions scalar_ToString object_prototype_names orders "status").
  repeat constructor.
Defined.

Lemma groupBy_throws_on_inherited_key_witness :
  GroupBy.groupBy scalar_ToString object_prototype_names
    (orders ++ odd_order :: orders) "status"
  = Rejected GroupBy.not_a_function.
Proof.
  apply (groupBy_throws_on_inherited_key scalar_ToString object_prototype_names).
  - repeat constructor.
  - reflexivity.
Defined.

Lemma proceed_enabled_when_all_selected_witness :
  VendorSelect.proceed_disabled (VendorSelect.after_clicks three_clicks) two_items
  = false.
Proof.
  assert (Hclicks : Forall (VendorSelect.click_on_rendered two_items) three_clicks).
  { repeat (constructor;
              [unfold VendorSelect.click_on_rendered; simpl; tauto|]).
    constructor. }
  destruct (proceed_enabled_when_all_selected two_items three_clicks Hclicks)
    as [Hdistinct _].
  assert (Hnd : NoDup (map VendorSelect.id two_items)) by compute_done.
  apply (proj2 (Hdistinct Hnd)).
  intros item [<-|[<-|[]]]; eexists; reflexivity.
Defined.


Lemma fetchVendors_failure_keeps_table_witness :
  fst (VendorSelect.fetchVendors (Rejected offline) VendorSelect.initial_itemVendors)
  = VendorSelect.initial_itemVendors /\
  snd (VendorSelect.fetchVendors (Rejected offline) VendorSelect.initial_itemVendors)
  <> None.
Proof.
  apply (fetchVendors_failure_keeps_table (Rejected offline)).
  left. exists offline. reflexivity.
Defined.

End MoreWitnesses.

Section LastWitnesses.

Lemma isValidPhone_shape_witness :
  Validators.isValidPhone "9876543210" = true /\
  Validators.isValidPhone "+919876543210" = false.
Proof.
  split.
  - apply (proj2 (isValidPhone_shape "9876543210")).
    split; [reflexivity|].
    eexists _, _. split; [reflexivity|]. split; [reflexivity|].
    repeat constructor.
  - destruct (Validators.isValidPhone "+919876543210") eqn:H; [|reflexivity].
    apply (proj1 (isValidPhone_shape "+919876543210")) in H as [Hlen _].
    discriminate Hlen.
Defined.

Import VendorSelect.

(** Where the items come from and what the page does on mount: a
    non-empty [items] prop always wins over the navigation state; the
    page redirects to ['/boq-normalize'] exactly when neither source has
    an item, and otherwise asks the backend address for the vendor
    ranking. *)
Theorem mount_redirects_only_without_items (items location_items : option (list Item)) :
  (forall i rest, items = Some (i :: rest) ->
     itemsToUse items location_items = i :: rest) /\
  (mount_effect (itemsToUse items location_items) = Navigate "/boq-normalize" <->
   (items = None \/ items = Some []) /\
   (location_items = None \/ location_items = Some [])) /\
  (mount_effect (itemsToUse items location_items) <> Navigate "/boq-normalize" ->
   mount_effect (itemsToUse items location_items)
   = Fetch "https://tatvadirect.onrender.com/api/vendors/rank").
Proof.
  split; [|split].
  - intros i rest ->. reflexivity.
  - destruct items as [[|i rest]|], location_items as [[|j more]|]; simpl;
      split; intros H; try discriminate; try tauto;
      destruct H as [[H|H] [H'|H']]; discriminate.
  - destruct items as [[|i rest]|], location_items as [[|j more]|]; simpl;
      intros H; try reflexivity; contradiction.
Qed.

Lemma mount_redirects_only_without_items_witness :
  itemsToUse (Some two_items) None = two_items /\
  mount_effect (itemsToUse (Some []) None) = Navigate "/boq-normalize" /\
  mount_effect (itemsToUse None (Some two_items))
  = Fetch "https://tatvadirect.onrender.com/api/vendors/rank".
Proof.
  destruct (mount_redirects_only_without_items (Some two_items) None) as (Hprop & _).
  destruct (mount_redirects_only_without_items (Some []) None) as (_ & Hnone & _).
  destruct (mount_redirects_only_without_items None (Some two_items)) as (_ & _ & Hsome).
  split; [exact (Hprop _ _ eq_refl)|]. split.
  - apply (proj2 Hnone). split; [right|left]; reflexivity.
  - apply Hsome. discriminate.
Defined.

End LastWitnesses.
